(** * agent-wallet-cli: keystore, session tokens and unlock lockout

    A shallow embedding of the secret-custody core of the wallet:

    - [security/encryption.ts]  (key derivation, AES-256-GCM, HKDF, HMAC),
    - [security/permissions.ts] ([fileExists]),
    - [security/lockout.ts]     ([checkLockout], [recordFailedAttempt],
                                 [recordSuccess]),
    - [core/keystore.ts]        ([createKeystore], [readKeystore],
                                 [decryptKeystore]),
    - [core/session.ts]         ([createSession], [validateSession],
                                 [revokeSession]),
    - [commands/unlock.ts],
      [commands/export.ts]      (the actions of [unlock] and [export], the
                                 two callers of the lockout functions),

    and, around it,

    - [core/session.ts]         ([resolveToken], and the two steps by which
                                 a command obtains the secret),
    - [security/password.ts]    ([validatePasswordStrength]),
    - [commands/init.ts]        (the action of [init], with
                                 [generateMnemonic] of core/mnemonic.ts),
    - [core/keystore.ts]        ([listKeystores]),
    - the later revision of [core/session.ts] ([canonicalJson] and the
      session functions whose HMAC covers the whole record), in the module
      [Hardened],
    - [chains/solana.ts]        ([parseSplAmount], [formatSplAmount]).

    Modelling choices.

    - The file system is a finite map from paths to file contents.  A file
      holds the JSON value that was written to it, kept as the typed record
      it serialises; [JSON.stringify] followed by [JSON.parse] is the
      identity on these records.  Directories and permission bits
      ([ensureSecureDir], [setFilePermissions]) are not tracked.
    - A JavaScript string is modelled by its UTF-8 byte sequence, so
      [Buffer.from(s, 'utf-8')] and [buf.toString('utf-8')] are the two
      directions of Stdlib's string/byte-list conversion.
    - A [Date] is its number of milliseconds since the epoch, in [Z];
      [toISOString] and [new Date(iso)] are inverse on these.
    - Every [new Date()] / [Date.now()] reads the head of a stream of clock
      readings; every [randomBytes(n)] takes [n] bytes from a stream of
      entropy.  Both streams are part of the world the operations run in.
    - A thrown exception leaves the effects performed before it in place:
      the monad returns the world together with the outcome.
    - [clearBuffer] overwrites a buffer that is not used afterwards; buffers
      are values here so the wipe has no counterpart.
    - The primitives of node:crypto, argon2 and the address derivation
      libraries are the fields of the [Runtime] class.
    - Where the text of a file, the words of a mnemonic or the ISO form of
      a time matter ([resolveToken], [init], [canonicalJson]), the function
      that gives them is a variable of the section.
    - [listKeystores] reads a directory: a directory is there when a file is
      stored under it, and its entries are the first segments of the paths
      under it. *)

From Stdlib Require Import ZArith Lia List.
From Stdlib.Strings Require Import Ascii String Byte.
From stdpp Require Import base option list sorting strings pretty gmap.

Local Open Scope string_scope.
Local Open Scope list_scope.
Local Open Scope Z_scope.

(** ** Bytes, hexadecimal and string helpers *)

Abbreviation bytes := (list byte).

#[global] Instance byte_eq_dec : EqDecision byte := Byte.byte_eq_dec.

(** Digits produced by [buf.toString('hex')]: lower case. *)
Definition hex_digit (n : N) : ascii :=
  match n with
  | 0 => "0" | 1 => "1" | 2 => "2" | 3 => "3" | 4 => "4" | 5 => "5"
  | 6 => "6" | 7 => "7" | 8 => "8" | 9 => "9" | 10 => "a" | 11 => "b"
  | 12 => "c" | 13 => "d" | 14 => "e" | _ => "f"
  end%N%char.

(** Digits accepted by [Buffer.from(s, 'hex')]: both cases. *)
Definition hex_value (c : ascii) : option N :=
  let n := N_of_ascii c in
  if ((48 <=? n) && (n <=? 57))%N then Some (n - 48)%N
  else if ((97 <=? n) && (n <=? 102))%N then Some (n - 87)%N
  else if ((65 <=? n) && (n <=? 70))%N then Some (n - 55)%N
  else None.

(** [buf.toString('hex')]. *)
Fixpoint toString_hex (b : bytes) : string :=
  match b with
  | [] => EmptyString
  | x :: r =>
      String (hex_digit (Byte.to_N x / 16))
        (String (hex_digit (Byte.to_N x mod 16)) (toString_hex r))
  end.

Definition hex_pair (a b : ascii) : option byte :=
  match hex_value a, hex_value b with
  | Some h, Some l => Byte.of_N (16 * h + l)
  | _, _ => None
  end.

(** [Buffer.from(s, 'hex')]: pairs of digits are decoded until the first
    pair that is not hexadecimal; a trailing single character is dropped. *)
Fixpoint from_hex (s : string) : bytes :=
  match s with
  | String a (String b r) =>
      match hex_pair a b with
      | Some x => x :: from_hex r
      | None => []
      end
  | _ => []
  end.

(** [s.startsWith(p)]. *)
Definition startsWith (s p : string) : bool := String.prefix p s.

(** [s.slice(n)] for [0 <= n]. *)
Fixpoint slice (n : nat) (s : string) : string :=
  match n, s with
  | O, _ => s
  | S n', String _ r => slice n' r
  | S _, EmptyString => EmptyString
  end.

(** [s.includes(sub)]. *)
Fixpoint includes (s sub : string) : bool :=
  String.prefix sub s ||
  match s with
  | EmptyString => false
  | String _ r => includes r sub
  end.

(** The double quote character, as a string. *)
Definition dquote : string := String (ascii_of_nat 34) EmptyString.

(** [path.join(a, b)] on the already normalised segments the callers pass. *)
Definition join (a b : string) : string := a +:+ "/" +:+ b.

(** [Math.ceil(a / b)] for integers [a] and [0 < b]. *)
Definition ceil_div (a b : Z) : Z := - ((- a) / b).

(** ** Outcomes *)

(** The codes of [output/errors.ts] that the modelled sources name. *)
Inductive ErrorCode :=
| ERR_INVALID_INPUT
| ERR_WALLET_EXISTS
| ERR_WALLET_NOT_FOUND
| ERR_WRONG_PASSWORD
| ERR_WALLET_LOCKED
| ERR_SESSION_NOT_FOUND
| ERR_SESSION_EXPIRED
| ERR_SESSION_INVALID
| ERR_NO_TOKEN
| ERR_EXPORT_NOT_CONFIRMED
| ERR_INTERNAL.

(** What a [throw] carries: a [WalletError] with its code, or another
    JavaScript [Error] (a library failure) with its message. *)
Inductive Exn :=
| WalletError (code : ErrorCode) (message : string)
| JsError (message : string).

Definition exn_message (e : Exn) : string :=
  match e with WalletError _ m => m | JsError m => m end.

(** The code [outputError] reports for a caught exception. *)
Definition exn_code (e : Exn) : ErrorCode :=
  match e with WalletError c _ => c | JsError _ => ERR_INTERNAL end.

Inductive Result (A : Type) :=
| Ok (a : A)
| Throw (e : Exn).
Arguments Ok {A} a.
Arguments Throw {A} e.

(** The code an outcome fails with, if it fails. *)
Definition failure {A} (r : Result A) : option ErrorCode :=
  match r with Ok _ => None | Throw e => Some (exn_code e) end.

(** ** Persisted records *)

(** [CipherParams] of encryption.ts. *)
Record CipherParams := {
  cipher_algorithm : string;
  iv : string;
  auth_tag : string;
  ciphertext : string;
}.

(** [KdfParams] of encryption.ts. *)
Record KdfParams := {
  kdf_algorithm : string;
  time_cost : Z;
  memory_cost : Z;
  parallelism : Z;
  salt : string;
}.

(** [KeystoreFile] of keystore.ts. *)
Record KeystoreFile := {
  ks_version : Z;
  name : string;
  ks_created_at : Z;
  kdf : KdfParams;
  ks_cipher : CipherParams;
  addresses_ethereum : list string;
  addresses_solana : list string;
  ethereum_path : string;
  solana_path : string;
}.

(** [SessionFile & { hkdf_salt : string }] of session.ts. *)
Record SessionFile := {
  version : Z;
  wallet_name : string;
  token_id : string;
  hmac : string;
  hkdf_salt : string;
  cipher : CipherParams;
  created_at : Z;
  expires_at : Z;
}.

(** [LockoutRecord] of lockout.ts; [null] is [None]. *)
Record LockoutRecord := {
  failed_attempts : Z;
  last_failed_at : option Z;
  locked_until : option Z;
}.

Inductive File :=
| KeystoreJson (k : KeystoreFile)
| SessionJson (s : SessionFile)
| LockoutJson (r : LockoutRecord)
| Text (t : string).

(** ** The world and the effect monad *)

Record World := {
  files : gmap string File;
  clock : nat -> Z;
  entropy : nat -> byte;
}.

Definition M (A : Type) : Type := World -> Result A * World.

Definition ret {A} (a : A) : M A := fun w => (Ok a, w).

Definition throw {A} (e : Exn) : M A := fun w => (Throw e, w).

Definition bind {A B} (m : M A) (k : A -> M B) : M B := fun w =>
  match m w with
  | (Ok a, w') => k a w'
  | (Throw e, w') => (Throw e, w')
  end.

(** [try { m } catch (error) { h error }]. *)
Definition try_catch {A} (m : M A) (h : Exn -> M A) : M A := fun w =>
  match m w with
  | (Ok a, w') => (Ok a, w')
  | (Throw e, w') => h e w'
  end.

Declare Scope io_scope.
Delimit Scope io_scope with io.
Notation "'let!' x ':=' m 'in' k" := (bind m (fun x => k))
  (at level 10, x name, m at level 100, k at level 200) : io_scope.
Notation "'let!' ' p ':=' m 'in' k" := (bind m (fun x => let 'p := x in k))
  (at level 10, p strict pattern, m at level 100, k at level 200) : io_scope.
Notation "'run!' m 'in' k" := (bind m (fun _ => k))
  (at level 10, m at level 100, k at level 200) : io_scope.
Local Open Scope io_scope.

(** [new Date()], [Date.now()]. *)
Definition now : M Z := fun w =>
  (Ok (clock w 0%nat),
   {| files := files w; clock := fun i => clock w (S i); entropy := entropy w |}).

(** [randomBytes(size)]. *)
Definition randomBytes (size : nat) : M bytes := fun w =>
  (Ok (map (entropy w) (seq 0 size)),
   {| files := files w; clock := clock w;
      entropy := fun i => entropy w (size + i)%nat |}).

(** [fileExists(path)] of permissions.ts. *)
Definition fileExists (path : string) : M bool := fun w =>
  (Ok (match files w !! path with Some _ => true | None => false end), w).

(** [writeFile(path, content)]. *)
Definition writeFile (path : string) (content : File) : M unit := fun w =>
  (Ok tt,
   {| files := <[path := content]> (files w); clock := clock w;
      entropy := entropy w |}).

(** [unlink(path)], called only after [fileExists]. *)
Definition unlink (path : string) : M unit := fun w =>
  (Ok tt,
   {| files := delete path (files w); clock := clock w;
      entropy := entropy w |}).

(** [readFile(path)]; an absent file is the ENOENT failure of node. *)
Definition readFile (path : string) : M File := fun w =>
  match files w !! path with
  | Some f => (Ok f, w)
  | None => (Throw (JsError "ENOENT: no such file or directory"), w)
  end.

(** A pure computation that may throw, run inside [M]. *)
Definition of_result {A} (r : Result A) : M A := fun w => (r, w).

(** ** The runtime: node:crypto, argon2 and the derivation libraries *)

Class Runtime := {
  (** [argon2.hash(password, { type: argon2id, salt, timeCost, memoryCost,
      parallelism, hashLength: 32, raw: true })]. *)
  argon2_hash : string -> bytes -> Z -> Z -> Z -> bytes;
  (** [createCipheriv('aes-256-gcm', key, iv)], [update], [final] and
      [getAuthTag]: key, iv, plaintext to (ciphertext, tag). *)
  gcm_encrypt : bytes -> bytes -> bytes -> bytes * bytes;
  (** [createDecipheriv('aes-256-gcm', key, iv)], [setAuthTag], [update]
      and [final]: key, iv, tag, ciphertext to the plaintext, or to the
      [Error] that one of the four calls throws. *)
  gcm_decrypt : bytes -> bytes -> bytes -> bytes -> Result bytes;
  (** [hkdfSync('sha256', ikm, salt, info, length)]. *)
  hkdfSync : bytes -> bytes -> string -> nat -> bytes;
  (** [createHmac('sha256', key).update(data).digest()]. *)
  createHmac : bytes -> bytes -> bytes;
  (** [buf.toString('base64url')] and [Buffer.from(s, 'base64url')]. *)
  toString_base64url : bytes -> string;
  from_base64url : string -> bytes;
  (** [deriveAddresses(mnemonic, accountIndex)] of core/mnemonic.ts, which
      is viem, bip39, ed25519-hd-key and tweetnacl underneath: the Ethereum
      and the Solana address, or the exception of the library. *)
  deriveAddresses : string -> Z -> Result (string * string);
}.

(** The message of the [Error] that [decipher.final()] throws when the
    GCM tag does not verify. *)
Definition GCM_AUTH_FAILURE : string :=
  "Unsupported state or unable to authenticate data".

(** What the theorems ask of the runtime, each where it is needed. *)

(** [Buffer.from(buf.toString('base64url'), 'base64url')] gives [buf]. *)
Definition base64url_roundtrip `{Runtime} : Prop :=
  forall b : bytes, from_base64url (toString_base64url b) = b.

(** Opening what was sealed, under the same key and nonce, verifies and
    gives the plaintext. *)
Definition gcm_correct `{Runtime} : Prop :=
  forall key nonce plaintext ct tag,
    gcm_encrypt key nonce plaintext = (ct, tag) ->
    gcm_decrypt key nonce tag ct = Ok plaintext.


Section Wallet.

Context `{RT : Runtime}.

(** ** security/encryption.ts *)

Definition DEFAULT_TIME_COST : Z := 6.
Definition DEFAULT_MEMORY_COST : Z := 65536.
Definition DEFAULT_PARALLELISM : Z := 4.

(** The optional [params] argument of [deriveKeyFromPassword]. *)
Record KdfOverrides := {
  o_time_cost : option Z;
  o_memory_cost : option Z;
  o_parallelism : option Z;
}.

Definition deriveKeyFromPassword (password : string) (salt : option bytes)
    (params : option KdfOverrides) : M (bytes * KdfParams) :=
  let! actualSalt :=
    match salt with Some s => ret s | None => randomBytes 32 end in
  let timeCost := default DEFAULT_TIME_COST (params ≫= o_time_cost) in
  let memoryCost := default DEFAULT_MEMORY_COST (params ≫= o_memory_cost) in
  let parallelism := default DEFAULT_PARALLELISM (params ≫= o_parallelism) in
  let key := argon2_hash password actualSalt timeCost memoryCost parallelism in
  ret (key,
       {| kdf_algorithm := "argon2id";
          time_cost := timeCost;
          memory_cost := memoryCost;
          parallelism := parallelism;
          salt := toString_hex actualSalt |}).

Definition encryptAesGcm (plaintext key : bytes) : M CipherParams :=
  let! iv := randomBytes 12 in
  let '(encrypted, authTag) := gcm_encrypt key iv plaintext in
  ret {| cipher_algorithm := "aes-256-gcm";
         iv := toString_hex iv;
         auth_tag := toString_hex authTag;
         ciphertext := toString_hex encrypted |}.

Definition decryptAesGcm (cipher : CipherParams) (key : bytes) : M bytes :=
  let iv := from_hex (iv cipher) in
  let authTag := from_hex (auth_tag cipher) in
  let ciphertext := from_hex (ciphertext cipher) in
  let! decrypted := of_result (gcm_decrypt key iv authTag ciphertext) in
  ret decrypted.

Definition encryptMnemonic (mnemonic password : string)
    : M (KdfParams * CipherParams) :=
  let! '(key, kdfParams) := deriveKeyFromPassword password None None in
  let! cipherParams := encryptAesGcm (list_byte_of_string mnemonic) key in
  ret (kdfParams, cipherParams).

Definition decryptMnemonic (kdfParams : KdfParams) (cipherParams : CipherParams)
    (password : string) : M string :=
  let salt := from_hex (salt kdfParams) in
  let! '(key, _) :=
    deriveKeyFromPassword password (Some salt)
      (Some {| o_time_cost := Some (time_cost kdfParams);
               o_memory_cost := Some (memory_cost kdfParams);
               o_parallelism := Some (parallelism kdfParams) |}) in
  let! plaintext := decryptAesGcm cipherParams key in
  ret (string_of_list_byte plaintext).

Definition deriveHkdfKey (ikm salt : bytes) (info : string) (length : nat)
    : bytes :=
  hkdfSync ikm salt info length.

Definition hmacSha256 (key data : bytes) : bytes := createHmac key data.

Definition secureRandom (size : nat) : M bytes := randomBytes size.

(** ** core/config.ts *)

Definition getKeystoreDir (walletDir : string) : string :=
  join walletDir "keystores".

Definition getSessionDir (walletDir : string) : string :=
  join walletDir "sessions".

(** ** core/session.ts *)

Definition TOKEN_PREFIX : string := "wlt_".
Definition TOKEN_ID_SIZE : nat := 16.
Definition TOKEN_SECRET_SIZE : nat := 32.
Definition HKDF_INFO : string := "wallet-cli-session-key".
Definition DEFAULT_DURATION : Z := 3600.
Definition MAX_DURATION : Z := 86400.

Definition getSessionPath (walletDir name : string) : string :=
  join (getSessionDir walletDir) (name +:+ ".json").

Definition getTokenFilePath (walletDir name : string) : string :=
  join (getSessionDir walletDir) (name +:+ ".token").

Definition encodeToken (tokenId tokenSecret : bytes) : string :=
  let combined := (tokenId ++ tokenSecret)%list in
  let encoded := toString_base64url combined in
  TOKEN_PREFIX +:+ encoded.

Definition decodeToken (token : string) : Result (bytes * bytes) :=
  if negb (startsWith token TOKEN_PREFIX) then
    Throw (WalletError ERR_SESSION_INVALID "Invalid token format")
  else
    let encoded := slice (String.length TOKEN_PREFIX) token in
    let combined := from_base64url encoded in
    if negb (length combined =? TOKEN_ID_SIZE + TOKEN_SECRET_SIZE)%nat then
      Throw (WalletError ERR_SESSION_INVALID "Invalid token length")
    else
      let tokenId := take TOKEN_ID_SIZE combined in
      let tokenSecret := drop TOKEN_ID_SIZE combined in
      Ok (tokenId, tokenSecret).

(** A malformed token in the words of the specification: the prefix is
    wrong, or the decoded payload is not the 16 bytes of a token-id followed
    by the 32 bytes of a token-secret. *)
Definition malformed (token : string) : Prop :=
  startsWith token TOKEN_PREFIX = false \/
  length (from_base64url (slice (String.length TOKEN_PREFIX) token))
  <> (TOKEN_ID_SIZE + TOKEN_SECRET_SIZE)%nat.

Definition createSession (walletDir walletName mnemonic : string)
    (duration : option Z) : M string :=
  let actualDuration := Z.min (default DEFAULT_DURATION duration) MAX_DURATION in
  let! tokenId := secureRandom TOKEN_ID_SIZE in
  let! tokenSecret := secureRandom TOKEN_SECRET_SIZE in
  let! salt := secureRandom 32 in
  let sessionKey := deriveHkdfKey tokenSecret salt HKDF_INFO 32 in
  let mnemonicBuf := list_byte_of_string mnemonic in
  let! cipher := encryptAesGcm mnemonicBuf sessionKey in
  let hmac := hmacSha256 tokenSecret tokenId in
  let! now := now in
  let expiresAt := now + actualDuration * 1000 in
  let sessionFile :=
    {| version := 1;
       wallet_name := walletName;
       token_id := toString_hex tokenId;
       hmac := toString_hex hmac;
       hkdf_salt := toString_hex salt;
       cipher := cipher;
       created_at := now;
       expires_at := expiresAt |} in
  let sessionPath := getSessionPath walletDir walletName in
  run! writeFile sessionPath (SessionJson sessionFile) in
  let token := encodeToken tokenId tokenSecret in
  let tokenPath := getTokenFilePath walletDir walletName in
  run! writeFile tokenPath (Text token) in
  ret token.

Definition revokeSession (walletDir walletName : string) : M unit :=
  let sessionPath := getSessionPath walletDir walletName in
  let tokenPath := getTokenFilePath walletDir walletName in
  let! sessionThere := fileExists sessionPath in
  run! (if sessionThere then unlink sessionPath else ret tt) in
  let! tokenThere := fileExists tokenPath in
  if tokenThere then unlink tokenPath else ret tt.

(** [JSON.parse(await readFile(path, 'utf-8')) as SessionFile]; a file of
    another kind at that path is taken as one that does not parse. *)
Definition readSessionFile (path : string) : M SessionFile :=
  let! content := readFile path in
  match content with
  | SessionJson s => ret s
  | _ => throw (JsError "SyntaxError: Unexpected token in JSON")
  end.

Definition validateSession (walletDir walletName token : string) : M string :=
  let sessionPath := getSessionPath walletDir walletName in
  let! there := fileExists sessionPath in
  if negb there then
    throw (WalletError ERR_SESSION_NOT_FOUND "No active session found")
  else
    let! sessionData := readSessionFile sessionPath in
    let expiresAt := expires_at sessionData in
    let! current := now in
    if expiresAt <? current then
      run! revokeSession walletDir walletName in
      throw (WalletError ERR_SESSION_EXPIRED "Session has expired")
    else
      let! '(tokenId, tokenSecret) := of_result (decodeToken token) in
      if negb (String.eqb (toString_hex tokenId) (token_id sessionData)) then
        throw (WalletError ERR_SESSION_INVALID "Invalid session token")
      else
        let expectedHmac := hmacSha256 tokenSecret tokenId in
        if negb (String.eqb (toString_hex expectedHmac) (hmac sessionData)) then
          throw (WalletError ERR_SESSION_INVALID "Invalid session token")
        else
          let salt := from_hex (hkdf_salt sessionData) in
          let sessionKey := deriveHkdfKey tokenSecret salt HKDF_INFO 32 in
          let! mnemonicBuf := decryptAesGcm (cipher sessionData) sessionKey in
          let mnemonic := string_of_list_byte mnemonicBuf in
          ret mnemonic.

(** ** core/keystore.ts *)

Definition getKeystorePath (walletDir name : string) : string :=
  join (getKeystoreDir walletDir) (name +:+ ".json").

Definition keystoreExists (walletDir name : string) : M bool :=
  fileExists (getKeystorePath walletDir name).

Definition createKeystore (walletDir name mnemonic password : string)
    : M KeystoreFile :=
  let keystorePath := getKeystorePath walletDir name in
  let! there := fileExists keystorePath in
  if there then
    throw (WalletError ERR_WALLET_EXISTS
             ("Wallet " +:+ dquote +:+ name +:+ dquote +:+ " already exists"))
  else
    let! '(kdfParams, cipherParams) := encryptMnemonic mnemonic password in
    let! addresses := of_result (deriveAddresses mnemonic 0) in
    let! created := now in
    let keystore :=
      {| ks_version := 1;
         name := name;
         ks_created_at := created;
         kdf := kdfParams;
         ks_cipher := cipherParams;
         addresses_ethereum := [addresses.1];
         addresses_solana := [addresses.2];
         ethereum_path := "m/44'/60'/0'/0/{i}";
         solana_path := "m/44'/501'/{i}'/0'" |} in
    run! writeFile keystorePath (KeystoreJson keystore) in
    ret keystore.

Definition readKeystore (walletDir name : string) : M KeystoreFile :=
  let keystorePath := getKeystorePath walletDir name in
  let! there := fileExists keystorePath in
  if negb there then
    throw (WalletError ERR_WALLET_NOT_FOUND
             ("Wallet " +:+ dquote +:+ name +:+ dquote +:+ " not found"))
  else
    let! data := readFile keystorePath in
    match data with
    | KeystoreJson k => ret k
    | _ => throw (JsError "SyntaxError: Unexpected token in JSON")
    end.

Definition decryptKeystore (walletDir name password : string) : M string :=
  let! keystore := readKeystore walletDir name in
  try_catch (decryptMnemonic (kdf keystore) (ks_cipher keystore) password)
    (fun error =>
       if includes (exn_message error) "Unsupported state"
          || includes (exn_message error) "auth"
       then throw (WalletError ERR_WRONG_PASSWORD "Incorrect password")
       else throw error).
(** What the [catch] of [decryptKeystore] throws for a caught error: an
    error whose message contains [Unsupported state] or [auth] becomes the
    wrong-password outcome, any other error is thrown again. *)
Definition reported (error : Exn) : Exn :=
  if includes (exn_message error) "Unsupported state"
     || includes (exn_message error) "auth"
  then WalletError ERR_WRONG_PASSWORD "Incorrect password"
  else error.

(** ** security/lockout.ts *)

Definition MAX_FAILED_ATTEMPTS : Z := 5.
Definition BASE_DELAY_MS : Z := 1000.
Definition LOCKOUT_DURATION_MS : Z := 15 * 60 * 1000.

Definition getLockoutDir (walletDir : string) : string :=
  join walletDir "lockout".

Definition getLockoutPath (walletDir walletName : string) : string :=
  join (getLockoutDir walletDir) (walletName +:+ ".json").

Definition EMPTY_LOCKOUT : LockoutRecord :=
  {| failed_attempts := 0; last_failed_at := None; locked_until := None |}.

(** The [try] block of [readLockoutRecord]: a lockout file gives its
    fields; another JSON object has none of the three fields, so each [??]
    takes its default; text that is not JSON makes [JSON.parse] throw. *)
Definition parseLockoutRecord (path : string) : M LockoutRecord :=
  let! content := readFile path in
  match content with
  | LockoutJson data => ret data
  | KeystoreJson _ | SessionJson _ => ret EMPTY_LOCKOUT
  | Text _ => throw (JsError "SyntaxError: Unexpected token in JSON")
  end.

Definition readLockoutRecord (walletDir walletName : string)
    : M LockoutRecord :=
  let path := getLockoutPath walletDir walletName in
  let! there := fileExists path in
  if negb there then ret EMPTY_LOCKOUT
  else try_catch (parseLockoutRecord path) (fun _ => ret EMPTY_LOCKOUT).

Definition writeLockoutRecord (walletDir walletName : string)
    (record : LockoutRecord) : M unit :=
  let path := getLockoutPath walletDir walletName in
  writeFile path (LockoutJson record).

Definition plural (n : Z) : string := if n =? 1 then EmptyString else "s".

Definition checkLockout (walletDir walletName : string) : M LockoutRecord :=
  let! record := readLockoutRecord walletDir walletName in
  let! record :=
    match locked_until record with
    | Some lockedUntil =>
        let! current := now in
        if current <? lockedUntil then
          let remainingSec := ceil_div (lockedUntil - current) 1000 in
          let remainingMin := ceil_div remainingSec 60 in
          throw (WalletError ERR_WALLET_LOCKED
                   ("Wallet is locked due to "
                    +:+ pretty (failed_attempts record)
                    +:+ " consecutive failed attempts. Try again in "
                    +:+ pretty remainingMin +:+ " minute"
                    +:+ plural remainingMin +:+ "."))
        else
          let record := EMPTY_LOCKOUT in
          run! writeLockoutRecord walletDir walletName record in
          ret record
    | None => ret record
    end in
  if 0 <? failed_attempts record then
    match last_failed_at record with
    | Some lastFailed =>
        let backoffMs := BASE_DELAY_MS * 2 ^ (failed_attempts record - 1) in
        let earliestRetry := lastFailed + backoffMs in
        let! current := now in
        if current <? earliestRetry then
          let waitSec := ceil_div (earliestRetry - current) 1000 in
          throw (WalletError ERR_WALLET_LOCKED
                   ("Too many failed attempts. Please wait "
                    +:+ pretty waitSec +:+ " second" +:+ plural waitSec
                    +:+ " before retrying."))
        else ret record
    | None => ret record
    end
  else ret record.

Definition recordFailedAttempt (walletDir walletName : string)
    (record : LockoutRecord) : M unit :=
  let attempts := failed_attempts record + 1 in
  let! failedAt := now in
  let! lockedUntil :=
    if MAX_FAILED_ATTEMPTS <=? attempts then
      let! current := now in
      ret (Some (current + LOCKOUT_DURATION_MS))
    else ret (locked_until record) in
  writeLockoutRecord walletDir walletName
    {| failed_attempts := attempts;
       last_failed_at := Some failedAt;
       locked_until := lockedUntil |}.

Definition recordSuccess (walletDir walletName : string) : M unit :=
  let path := getLockoutPath walletDir walletName in
  let! there := fileExists path in
  if there then unlink path else ret tt.

(** The lockout invariant on a store: a lockout record with a lock
    timestamp has a counter at the threshold or beyond. *)
Definition lockout_ok (store : gmap string File) : Prop :=
  forall path r,
    store !! path = Some (LockoutJson r) ->
    is_Some (locked_until r) -> MAX_FAILED_ATTEMPTS <= failed_attempts r.

(** ** commands/unlock.ts *)

(** The action of the [unlock] command, up to the call of [outputSuccess]
    or [outputError]: the token it prints, or the exception it reports.
    [password] is the [--password] option or else the line read from
    standard input; [duration] is [parseInt(opts.duration)], [None] for
    [NaN]. *)
Definition unlock (walletDir name password : string) (duration : option Z)
    : M string :=
  if String.eqb password EmptyString then
    throw (WalletError ERR_INVALID_INPUT "Password is required")
  else
    match duration with
    | None =>
        throw (WalletError ERR_INVALID_INPUT "Duration must be a positive integer")
    | Some duration =>
        if duration <=? 0 then
          throw (WalletError ERR_INVALID_INPUT "Duration must be a positive integer")
        else
          let! lockoutRecord := checkLockout walletDir name in
          let! mnemonic :=
            try_catch (decryptKeystore walletDir name password)
              (fun error =>
                 run! (match error with
                       | WalletError ERR_WRONG_PASSWORD _ =>
                           recordFailedAttempt walletDir name lockoutRecord
                       | _ => ret tt
                       end) in
                 throw error) in
          run! recordSuccess walletDir name in
          let! token := createSession walletDir name mnemonic (Some duration) in
          ret token
    end.

(** ** commands/export.ts *)

(** The action of the [export] command: the mnemonic it prints, or the
    exception it reports.  [confirm] is the [--confirm] flag. *)
Definition exportMnemonic (walletDir name password : string) (confirm : bool)
    : M string :=
  if negb confirm then
    throw (WalletError ERR_EXPORT_NOT_CONFIRMED
             "Export requires --confirm flag. This will display your mnemonic phrase.")
  else if String.eqb password EmptyString then
    throw (WalletError ERR_INVALID_INPUT "Password is required")
  else
    let! lockoutRecord := checkLockout walletDir name in
    let! mnemonic :=
      try_catch (decryptKeystore walletDir name password)
        (fun error =>
           run! (match error with
                 | WalletError ERR_WRONG_PASSWORD _ =>
                     recordFailedAttempt walletDir name lockoutRecord
                 | _ => ret tt
                 end) in
           throw error) in
    run! recordSuccess walletDir name in
    ret mnemonic.

(** ** The interface of the core

    The operations the core exposes to the command layer: create and decrypt
    of the keystore; issue, validate and revoke of the session engine; check,
    record_failure and record_success of the lockout guard. *)
Inductive Operation :=
| Create (walletDir name secret password : string)
| Decrypt (walletDir name password : string)
| Issue (walletDir name secret : string) (duration : option Z)
| Validate (walletDir name token : string)
| Revoke (walletDir name : string)
| LockoutCheck (walletDir name : string)
| RecordFailure (walletDir name : string) (record : LockoutRecord)
| RecordSuccess (walletDir name : string).

(** Run an operation for its outcome and its effect, dropping its value. *)
Definition perform (op : Operation) : M unit :=
  match op with
  | Create d n s p => run! createKeystore d n s p in ret tt
  | Decrypt d n p => run! decryptKeystore d n p in ret tt
  | Issue d n s t => run! createSession d n s t in ret tt
  | Validate d n t => run! validateSession d n t in ret tt
  | Revoke d n => revokeSession d n
  | LockoutCheck d n => run! checkLockout d n in ret tt
  | RecordFailure d n r => recordFailedAttempt d n r
  | RecordSuccess d n => recordSuccess d n
  end.

(** The worlds the command layer can bring about from an empty wallet
    directory.  The lockout guard is driven by [unlock] and [export]; the
    other commands create keystores (init, import), decrypt them, validate
    sessions (every authenticated command) and revoke them (lock), and
    write files that are not lockout records (the mnemonic file of init,
    config.json).  Between two commands the clock and the entropy move
    freely; only the files persist. *)
Inductive reachable : World -> Prop :=
| reachable_empty w :
    files w = ∅ -> reachable w
| reachable_environment w w' :
    reachable w -> files w' = files w -> reachable w'
| reachable_unlock w d n p t :
    reachable w -> reachable (unlock d n p t w).2
| reachable_export w d n p c :
    reachable w -> reachable (exportMnemonic d n p c w).2
| reachable_create w d n s p :
    reachable w -> reachable (createKeystore d n s p w).2
| reachable_decrypt w d n p :
    reachable w -> reachable (decryptKeystore d n p w).2
| reachable_validate w d n t :
    reachable w -> reachable (validateSession d n t w).2
| reachable_revoke w d n :
    reachable w -> reachable (revokeSession d n w).2
| reachable_write w path f :
    reachable w -> (forall r, f <> LockoutJson r) ->
    reachable (writeFile path f w).2.

End Wallet.

(** ** More string methods *)

(** The line feed character, as a string. *)
Definition newline : string := String (ascii_of_nat 10) EmptyString.

(** The characters that [trim] removes (WhiteSpace and LineTerminator of
    ECMAScript), in UTF-8: U+0009 to U+000D, U+0020, U+00A0, U+1680, U+2000
    to U+200A, U+2028, U+2029, U+202F, U+205F, U+3000 and U+FEFF. *)
Definition WHITE_SPACE : list bytes :=
  [ [x09]; [x0a]; [x0b]; [x0c]; [x0d]; [x20]; [xc2; xa0]; [xe1; x9a; x80];
    [xe2; x80; x80]; [xe2; x80; x81]; [xe2; x80; x82]; [xe2; x80; x83];
    [xe2; x80; x84]; [xe2; x80; x85]; [xe2; x80; x86]; [xe2; x80; x87];
    [xe2; x80; x88]; [xe2; x80; x89]; [xe2; x80; x8a]; [xe2; x80; xa8];
    [xe2; x80; xa9]; [xe2; x80; xaf]; [xe2; x81; x9f]; [xe3; x80; x80];
    [xef; xbb; xbf] ].

(** The rest of [b] after [p], when [b] starts with [p]. *)
Fixpoint drop_prefix (p b : bytes) : option bytes :=
  match p, b with
  | [], _ => Some b
  | x :: p', y :: b' => if Byte.eqb x y then drop_prefix p' b' else None
  | _ :: _, [] => None
  end.

(** The rest of [b] after the first of [spaces] it starts with. *)
Fixpoint strip_one (spaces : list bytes) (b : bytes) : option bytes :=
  match spaces with
  | [] => None
  | ws :: rest =>
      match drop_prefix ws b with
      | Some r => Some r
      | None => strip_one rest b
      end
  end.

Fixpoint strip (spaces : list bytes) (fuel : nat) (b : bytes) : bytes :=
  match fuel with
  | O => b
  | S fuel' =>
      match strip_one spaces b with
      | Some r => strip spaces fuel' r
      | None => b
      end
  end.

Definition trimStart_bytes (b : bytes) : bytes :=
  strip WHITE_SPACE (length b) b.

Definition trimEnd_bytes (b : bytes) : bytes :=
  rev (strip (map (@rev byte) WHITE_SPACE) (length b) (rev b)).

(** [s.trim()]. *)
Definition trim (s : string) : string :=
  string_of_list_byte (trimEnd_bytes (trimStart_bytes (list_byte_of_string s))).

(** [array.join(sep)]. *)
Fixpoint Array_join (sep : string) (l : list string) : string :=
  match l with
  | [] => EmptyString
  | x :: r =>
      match r with
      | [] => x
      | _ :: _ => x +:+ sep +:+ Array_join sep r
      end
  end.

(** How many bytes of [l] satisfy [p]. *)
Fixpoint count_bytes (p : byte -> bool) (l : bytes) : nat :=
  match l with
  | [] => O
  | x :: r => ((if p x then 1 else 0) + count_bytes p r)%nat
  end.

(** [s.length]: the number of UTF-16 code units of a string held in UTF-8.
    Every byte that is not a continuation byte starts a character, and a
    character of four bytes takes two code units. *)
Definition js_length (s : string) : nat :=
  let b := list_byte_of_string s in
  (count_bytes (fun x => negb ((128 <=? Byte.to_N x) && (Byte.to_N x <? 192))%N) b
   + count_bytes (fun x => (240 <=? Byte.to_N x)%N) b)%nat.

(** A value that may be [undefined] or the empty string, as a condition:
    [if (s)]. *)
Definition truthy (s : option string) : option string :=
  match s with
  | Some t => if String.eqb t EmptyString then None else Some t
  | None => None
  end.

(** A printable ASCII character other than the space. *)
Definition visible (x : byte) : bool :=
  ((33 <=? Byte.to_N x) && (Byte.to_N x <=? 126))%N.

(** The base64url alphabet is letters, digits, [-] and [_]: what
    [buf.toString('base64url')] gives is printable ASCII without spaces. *)
Definition base64url_printable `{Runtime} : Prop :=
  forall b : bytes,
    Forall (fun x => visible x = true)
      (list_byte_of_string (toString_base64url b)).

(** ** security/password.ts *)

Definition MIN_PASSWORD_LENGTH : nat := 12.

Definition is_lower (x : byte) : bool :=
  ((97 <=? Byte.to_N x) && (Byte.to_N x <=? 122))%N.

Definition is_upper (x : byte) : bool :=
  ((65 <=? Byte.to_N x) && (Byte.to_N x <=? 90))%N.

Definition is_digit (x : byte) : bool :=
  ((48 <=? Byte.to_N x) && (Byte.to_N x <=? 57))%N.

(** [/[^a-zA-Z0-9]/]: the bytes of a character outside ASCII are all 128
    or more, so the character is special exactly when its bytes are. *)
Definition is_special (x : byte) : bool :=
  negb (is_lower x || is_upper x || is_digit x).

(** The [errors] array of [validatePasswordStrength]. *)
Definition passwordErrors (password : string) : list string :=
  let b := list_byte_of_string password in
  (if (js_length password <? MIN_PASSWORD_LENGTH)%nat then
     ["at least " +:+ pretty MIN_PASSWORD_LENGTH +:+ " characters (got "
      +:+ pretty (js_length password) +:+ ")"]
   else [])
  ++ (if negb (existsb is_lower b) then ["at least one lowercase letter"] else [])
  ++ (if negb (existsb is_upper b) then ["at least one uppercase letter"] else [])
  ++ (if negb (existsb is_digit b) then ["at least one digit"] else [])
  ++ (if negb (existsb is_special b) then ["at least one special character"]
      else []).

Definition validatePasswordStrength (password : string) : Result unit :=
  let errors := passwordErrors password in
  if (0 <? length errors)%nat then
    Throw (WalletError ERR_INVALID_INPUT
             ("Password too weak. Requirements: " +:+ Array_join "; " errors
              +:+ "."))
  else Ok tt.

Section Commands.

Context `{RT : Runtime}.

(** What [readFile(path, 'utf-8')] gives for a stored JSON file: the text
    that [JSON.stringify(record, null, 2)] wrote. *)
Variable JSON_stringify : File -> string.

Definition fileText (f : File) : string :=
  match f with
  | Text t => t
  | _ => JSON_stringify f
  end.

(** ** core/session.ts: the token of a command *)

(** [resolveToken]: [explicitToken] is the [--token] option and [envToken]
    is [process.env.WALLET_CLI_TOKEN]. *)
Definition resolveToken (walletDir walletName : string)
    (explicitToken envToken : option string) : M string :=
  match truthy explicitToken with
  | Some token => ret token
  | None =>
      match truthy envToken with
      | Some token => ret token
      | None =>
          let tokenPath := getTokenFilePath walletDir walletName in
          let! there := fileExists tokenPath in
          if there then
            let! content := readFile tokenPath in
            ret (trim (fileText content))
          else
            throw (WalletError ERR_NO_TOKEN
                     ("No session token provided. Use --token, WALLET_CLI_TOKEN env, or run "
                      +:+ dquote +:+ "wallet-cli unlock" +:+ dquote
                      +:+ " first."))
      end
  end.

(** The first two steps of every command that needs the secret (address,
    send, sign, ...): the token is resolved and the session validated. *)
Definition sessionMnemonic (walletDir name : string)
    (explicitToken envToken : option string) : M string :=
  let! token := resolveToken walletDir name explicitToken envToken in
  validateSession walletDir name token.

(** ** commands/init.ts *)

(** [bip39.entropyToMnemonic]: the words for the drawn entropy. *)
Variable entropyToMnemonic : bytes -> string.

(** [generateMnemonic(wordCount)] of core/mnemonic.ts. *)
Definition generateMnemonic (wordCount : Z) : M string :=
  let strength := if wordCount =? 24 then 256%nat else 128%nat in
  let! drawn := randomBytes (strength / 8) in
  ret (entropyToMnemonic drawn).

(** What the [init] command reports on success. *)
Record InitOutput := {
  out_name : string;
  out_ethereum : string;
  out_solana : string;
  mnemonic_file : string;
}.

(** The action of the [init] command, up to [outputSuccess] or
    [outputError].  [optPassword] is the [--password] option, [typed] and
    [confirm] are the two lines read from standard input when the option is
    absent, and [wordCount] is [parseInt(opts.wordCount)], [None] for
    [NaN]. *)
Definition init (walletDir walletName : string) (optPassword : option string)
    (typed confirm : string) (wordCount : option Z) : M InitOutput :=
  let! password :=
    match truthy optPassword with
    | Some password => ret password
    | None =>
        if negb (String.eqb typed confirm) then
          throw (WalletError ERR_INVALID_INPUT "Passwords do not match")
        else ret typed
    end in
  if String.eqb password EmptyString then
    throw (WalletError ERR_INVALID_INPUT "Password is required")
  else
    run! of_result (validatePasswordStrength password) in
    match wordCount with
    | Some count =>
        if negb (count =? 12) && negb (count =? 24) then
          throw (WalletError ERR_INVALID_INPUT "Word count must be 12 or 24")
        else
          let! mnemonic := generateMnemonic count in
          let! keystore := createKeystore walletDir walletName mnemonic password in
          let! addresses := of_result (deriveAddresses mnemonic 0) in
          let mnemonicFilePath := join walletDir (walletName +:+ ".mnemonic") in
          run! writeFile mnemonicFilePath (Text (mnemonic +:+ newline)) in
          ret {| out_name := name keystore;
                 out_ethereum := addresses.1;
                 out_solana := addresses.2;
                 mnemonic_file := mnemonicFilePath |}
    | None =>
        throw (WalletError ERR_INVALID_INPUT "Word count must be 12 or 24")
    end.

End Commands.

(** ** core/keystore.ts: the list of wallets *)

(** [s.endsWith(suffix)]. *)
Definition endsWith (s suffix : string) : bool :=
  (String.length suffix <=? String.length s)%nat
  && String.eqb (slice (String.length s - String.length suffix) s) suffix.

(** [s.replace(pattern, replacement)] for a pattern that is a string and a
    replacement without [$]: the first occurrence is replaced. *)
Fixpoint replace (s pattern replacement : string) : string :=
  if String.prefix pattern s then
    replacement +:+ slice (String.length pattern) s
  else
    match s with
    | EmptyString => EmptyString
    | String c r => String c (replace r pattern replacement)
    end.

(** The part of a relative path before its first [/]. *)
Fixpoint first_segment (s : string) : string :=
  match s with
  | EmptyString => EmptyString
  | String c r =>
      if Ascii.eqb c "/" then EmptyString else String c (first_segment r)
  end.

(** The entry of the directory [dir] that [path] is or lies in, if any. *)
Definition entry_of (dir path : string) : option string :=
  if String.prefix (dir +:+ "/") path then
    Some (first_segment (slice (String.length dir + 1) path))
  else None.

(** The store keeps files by path and keeps no directories.  A directory
    is taken to be there when a file is stored under it, and its entries are
    the first segments of the paths under it, in the order of the store
    (the order of [readdir] is the operating system's).  A directory that is
    there and empty lists like one that is missing, and [listKeystores]
    returns the empty list for both. *)
Definition entries (dir : string) (w : World) : list string :=
  remove_dups (omap (entry_of dir) (map_to_list (files w)).*1).

Definition directoryExists (dir : string) : M bool := fun w =>
  (Ok (match entries dir w with [] => false | _ :: _ => true end), w).

Definition readdir (dir : string) : M (list string) := fun w =>
  (Ok (entries dir w), w).

Definition listKeystores (walletDir : string) : M (list string) :=
  let keystoreDir := getKeystoreDir walletDir in
  let! there := directoryExists keystoreDir in
  if negb there then ret []
  else
    let! files := readdir keystoreDir in
    ret ((fun f => replace f ".json" EmptyString)
           <$> filter (fun f => endsWith f ".json" = true) files).

(** ** core/session.ts, hardened

    The later revision of the session engine in the repository: the HMAC
    of the record covers every field of the record but itself, through a
    canonical JSON text, and the token is not written to disk. *)

(** The backslash, as a string. *)
Definition backslash : string := String (ascii_of_nat 92) EmptyString.

(** JSON values; a number is an integer small enough to print in full, and
    the members of an object have distinct keys. *)
#[warnings="-register-all"] Inductive Json :=
| JNull
| JBool (b : bool)
| JNumber (n : Z)
| JString (s : string)
| JArray (items : list Json)
| JObject (members : list (string * Json)).

(** How [JSON.stringify] writes one character of a string: the bytes of a
    character outside ASCII are written as they are. *)
Definition quote_char (c : ascii) : string :=
  let n := N_of_ascii c in
  if (n =? 8)%N then backslash +:+ "b"
  else if (n =? 9)%N then backslash +:+ "t"
  else if (n =? 10)%N then backslash +:+ "n"
  else if (n =? 12)%N then backslash +:+ "f"
  else if (n =? 13)%N then backslash +:+ "r"
  else if (n =? 34)%N then backslash +:+ dquote
  else if (n =? 92)%N then backslash +:+ backslash
  else if (n <? 32)%N then
    backslash +:+ "u00"
    +:+ String (hex_digit (n / 16)) (String (hex_digit (n mod 16)) EmptyString)
  else String c EmptyString.

Fixpoint quote_chars (s : string) : string :=
  match s with
  | EmptyString => EmptyString
  | String c r => quote_char c +:+ quote_chars r
  end.

(** [JSON.stringify(s)] for a string. *)
Definition JSON_stringify_string (s : string) : string :=
  dquote +:+ quote_chars s +:+ dquote.

(** [obj[k]] on the members of an object. *)
Fixpoint property {A} (k : string) (members : list (string * A)) : option A :=
  match members with
  | [] => None
  | (k', v) :: rest => if String.eqb k k' then Some v else property k rest
  end.

(** [canonicalJson].  The members are rendered before the keys are sorted
    so that the recursion is structural; [sort()] without a comparator
    orders the keys by UTF-16 code units, which is the byte order of
    [String.le] for keys without characters beyond U+FFFF. *)
Fixpoint canonicalJson (obj : Json) : string :=
  match obj with
  | JNull => "null"
  | JBool b => if b then "true" else "false"
  | JNumber n => pretty n
  | JString s => JSON_stringify_string s
  | JArray items =>
      "[" +:+ Array_join "," (map canonicalJson items) +:+ "]"
  | JObject members =>
      let rendered :=
        map (fun kv => match kv with (k, v) => (k, canonicalJson v) end)
          members in
      let sorted := merge_sort String.le (map fst rendered) in
      let entries :=
        map (fun k =>
               JSON_stringify_string k +:+ ":"
               +:+ default EmptyString (property k rendered))
          sorted in
      "{" +:+ Array_join "," entries +:+ "}"
  end.

Module Hardened.

Section Session.

Context `{RT : Runtime}.

(** [date.toISOString()] for a time in milliseconds. *)
Variable toISOString : Z -> string.

Definition HKDF_INFO : string := "agent-wallet-cli-session-key".

Definition cipherJson (c : CipherParams) : Json :=
  JObject [ ("algorithm", JString (cipher_algorithm c));
            ("iv", JString (iv c));
            ("auth_tag", JString (auth_tag c));
            ("ciphertext", JString (ciphertext c)) ].

(** The session data without its HMAC: [sessionData] of [createSession],
    [dataWithoutHmac] of [validateSession]. *)
Definition dataWithoutHmac (s : SessionFile) : Json :=
  JObject [ ("version", JNumber (version s));
            ("wallet_name", JString (wallet_name s));
            ("token_id", JString (token_id s));
            ("hkdf_salt", JString (hkdf_salt s));
            ("cipher", cipherJson (cipher s));
            ("created_at", JString (toISOString (created_at s)));
            ("expires_at", JString (toISOString (expires_at s))) ].

(** [hmacSha256(tokenSecret, Buffer.from(canonicalJson(data)))]. *)
Definition recordHmac (tokenSecret : bytes) (s : SessionFile) : bytes :=
  hmacSha256 tokenSecret
    (list_byte_of_string (canonicalJson (dataWithoutHmac s))).

Definition createSession (walletDir walletName mnemonic : string)
    (duration : option Z) : M string :=
  let actualDuration := Z.min (default DEFAULT_DURATION duration) MAX_DURATION in
  let! tokenId := secureRandom TOKEN_ID_SIZE in
  let! tokenSecret := secureRandom TOKEN_SECRET_SIZE in
  let! salt := secureRandom 32 in
  let sessionKey := deriveHkdfKey tokenSecret salt HKDF_INFO 32 in
  let mnemonicBuf := list_byte_of_string mnemonic in
  let! cipher := encryptAesGcm mnemonicBuf sessionKey in
  let! now := now in
  let expiresAt := now + actualDuration * 1000 in
  let sessionData :=
    {| version := 1;
       wallet_name := walletName;
       token_id := toString_hex tokenId;
       hmac := EmptyString;
       hkdf_salt := toString_hex salt;
       cipher := cipher;
       created_at := now;
       expires_at := expiresAt |} in
  let hmac := recordHmac tokenSecret sessionData in
  let sessionFile :=
    {| version := 1;
       wallet_name := walletName;
       token_id := toString_hex tokenId;
       hmac := toString_hex hmac;
       hkdf_salt := toString_hex salt;
       cipher := cipher;
       created_at := now;
       expires_at := expiresAt |} in
  let sessionPath := getSessionPath walletDir walletName in
  run! writeFile sessionPath (SessionJson sessionFile) in
  let token := encodeToken tokenId tokenSecret in
  ret token.

Definition revokeSession (walletDir walletName : string) : M unit :=
  let sessionPath := getSessionPath walletDir walletName in
  let! sessionThere := fileExists sessionPath in
  if sessionThere then unlink sessionPath else ret tt.

Definition validateSession (walletDir walletName token : string) : M string :=
  let sessionPath := getSessionPath walletDir walletName in
  let! there := fileExists sessionPath in
  if negb there then
    throw (WalletError ERR_SESSION_NOT_FOUND "No active session found")
  else
    let! sessionData := readSessionFile sessionPath in
    let expiresAt := expires_at sessionData in
    let! current := now in
    if expiresAt <? current then
      run! revokeSession walletDir walletName in
      throw (WalletError ERR_SESSION_EXPIRED "Session has expired")
    else
      let! '(tokenId, tokenSecret) := of_result (decodeToken token) in
      if negb (String.eqb (toString_hex tokenId) (token_id sessionData)) then
        throw (WalletError ERR_SESSION_INVALID "Invalid session token")
      else
        let storedHmac := hmac sessionData in
        let expectedHmac := recordHmac tokenSecret sessionData in
        if negb (String.eqb (toString_hex expectedHmac) storedHmac) then
          throw (WalletError ERR_SESSION_INVALID "Invalid session token")
        else
          let salt := from_hex (hkdf_salt sessionData) in
          let sessionKey := deriveHkdfKey tokenSecret salt HKDF_INFO 32 in
          let! mnemonicBuf := decryptAesGcm (cipher sessionData) sessionKey in
          let mnemonic := string_of_list_byte mnemonicBuf in
          ret mnemonic.

(** [resolveToken]: [envToken] is [process.env.AGENT_WALLET_CLI_TOKEN]. *)
Definition resolveToken (walletDir walletName : string)
    (explicitToken envToken : option string) : M string :=
  match truthy explicitToken with
  | Some token => ret token
  | None =>
      match truthy envToken with
      | Some token => ret token
      | None =>
          throw (WalletError ERR_NO_TOKEN
                   ("No session token provided. Use --token or set AGENT_WALLET_CLI_TOKEN env var. Run "
                    +:+ dquote +:+ "agent-wallet-cli unlock" +:+ dquote
                    +:+ " to get a token."))
      end
  end.

End Session.

End Hardened.

(** ** chains/solana.ts: token amounts

    The amounts are text in ASCII, where a byte is a character and a
    UTF-16 code unit, so that [length], [slice] and the paddings count
    alike here and in JavaScript. *)

(** [s.split('.')]. *)
Fixpoint split_dot (s : string) : list string :=
  match s with
  | EmptyString => [EmptyString]
  | String c r =>
      if Ascii.eqb c "." then EmptyString :: split_dot r
      else
        match split_dot r with
        | p :: ps => String c p :: ps
        | [] => [String c EmptyString]
        end
  end.

(** [s.slice(0, n)] for [0 <= n]. *)
Fixpoint slice_to (n : nat) (s : string) : string :=
  match n, s with
  | S n', String c r => String c (slice_to n' r)
  | _, _ => EmptyString
  end.

(** ['0'.repeat(n)]. *)
Fixpoint zeros (n : nat) : string :=
  match n with
  | O => EmptyString
  | S n' => String "0" (zeros n')
  end.

(** [s.padStart(n, '0')] and [s.padEnd(n, '0')]. *)
Definition padStart (s : string) (n : nat) : string :=
  zeros (n - String.length s) +:+ s.

Definition padEnd (s : string) (n : nat) : string :=
  s +:+ zeros (n - String.length s).

(** [s.replace(/0+$/, '')]. *)
Fixpoint strip_trailing_zeros (s : string) : string :=
  match s with
  | EmptyString => EmptyString
  | String c r =>
      let r' := strip_trailing_zeros r in
      if Ascii.eqb c "0" && String.eqb r' EmptyString then EmptyString
      else String c r'
  end.

(** The digits of a literal in a radix, most significant first. *)
Fixpoint parse_digits (radix acc : N) (s : string) : option N :=
  match s with
  | EmptyString => Some acc
  | String c r =>
      match hex_value c with
      | Some v =>
          if (v <? radix)%N then parse_digits radix (acc * radix + v)%N r
          else None
      | None => None
      end
  end.

(** A decimal digit, and a text of decimal digits. *)
Definition decimal_digit (c : ascii) : bool :=
  ((48 <=? N_of_ascii c) && (N_of_ascii c <=? 57))%N.

Fixpoint all_digits (s : string) : bool :=
  match s with
  | EmptyString => true
  | String c r => decimal_digit c && all_digits r
  end.

(** One digit or more. *)
Definition parse_number (radix : N) (s : string) : option Z :=
  match s with
  | EmptyString => None
  | String _ _ => Z.of_N <$> parse_digits radix 0 s
  end.

(** The grammar of [BigInt(string)] after the white space is trimmed:
    nothing, which is zero; decimal digits with an optional sign; or
    binary, octal or hexadecimal digits after [0b], [0o] or [0x]. *)
Definition parse_bigint (t : string) : option Z :=
  match t with
  | EmptyString => Some 0
  | String c r =>
      if Ascii.eqb c "-" then Z.opp <$> parse_number 10 r
      else if Ascii.eqb c "+" then parse_number 10 r
      else
        match t with
        | String "0" (String p digits) =>
            if Ascii.eqb p "x" || Ascii.eqb p "X" then parse_number 16 digits
            else if Ascii.eqb p "o" || Ascii.eqb p "O" then parse_number 8 digits
            else if Ascii.eqb p "b" || Ascii.eqb p "B" then parse_number 2 digits
            else parse_number 10 t
        | _ => parse_number 10 t
        end
  end.

(** [BigInt(s)] for a string. *)
Definition BigInt (s : string) : Result Z :=
  match parse_bigint (trim s) with
  | Some z => Ok z
  | None => Throw (JsError ("SyntaxError: Cannot convert " +:+ s +:+ " to a BigInt"))
  end.

Definition parseSplAmount (amount : string) (decimals : nat) : Result Z :=
  let parts := split_dot amount in
  let whole := default EmptyString (parts !! 0%nat) in
  let frac :=
    slice_to decimals (padEnd (default EmptyString (parts !! 1%nat)) decimals) in
  BigInt (whole +:+ frac).

Definition formatSplAmount (amount : Z) (decimals : nat) : string :=
  let str := padStart (pretty amount) (decimals + 1) in
  let whole :=
    let w := slice_to (String.length str - decimals) str in
    if String.eqb w EmptyString then "0" else w in
  let frac := slice (String.length str - decimals) str in
  if String.eqb frac (zeros decimals) then whole
  else whole +:+ "." +:+ strip_trailing_zeros frac.

(** ** A stand-in runtime

    Executable examples need the runtime to be something.  This instance has
    the algebraic behaviour of the real primitives that the theorems below
    rely on (opening what was sealed gives the plaintext back, opening under
    another key fails, decoding undoes encoding) and none of their secrecy:
    the tag is the key followed by the nonce, the derived keys are
    concatenations of their inputs, and base64url is played by hexadecimal. *)
Module Standin.

Definition argon2 (password : string) (salt : bytes) (t m p : Z) : bytes :=
  list_byte_of_string password ++ salt.

Definition seal (key iv plaintext : bytes) : bytes * bytes :=
  (plaintext, key ++ iv).

Definition open (key iv tag ciphertext : bytes) : Result bytes :=
  if bool_decide (tag = key ++ iv) then Ok ciphertext
  else Throw (JsError GCM_AUTH_FAILURE).

Definition hkdf (ikm salt : bytes) (info : string) (length : nat) : bytes :=
  ikm ++ salt.

Definition mac (key data : bytes) : bytes := key ++ data.

Definition addresses (mnemonic : string) (i : Z) : Result (string * string) :=
  Ok ("0x9858EfFD232B4033E47d90003D41EC34EcaEda94",
      "HAgk14JpMQLgt6rVgv7cBQFJWFto5Dqxi472uT3DKpqk").

#[global] Instance runtime : Runtime := {|
  argon2_hash := argon2;
  gcm_encrypt := seal;
  gcm_decrypt := open;
  hkdfSync := hkdf;
  createHmac := mac;
  toString_base64url := toString_hex;
  from_base64url := from_hex;
  deriveAddresses := addresses;
|}.

(** An empty wallet directory, a clock that starts at
    2026-01-01T00:00:00.000Z and advances by [step] milliseconds per
    reading, and entropy that counts. *)
Definition world (step : Z) : World :=
  {| files := ∅;
     clock := fun i => 1767225600000 + step * Z.of_nat i;
     entropy := fun i => default x00 (Byte.of_N (N.of_nat i mod 256)) |}.

(** The same files at a later time. *)
Definition later (ms : Z) (w : World) : World :=
  {| files := files w;
     clock := fun i => clock w i + ms;
     entropy := entropy w |}.

(** A test mnemonic, a password, and the token that the first
    [createSession] of [world] issues. *)
Definition MNEMONIC : string :=
  "abandon abandon abandon abandon abandon abandon abandon abandon abandon abandon abandon about".
Definition PASSWORD : string := "Correct-Horse-1!".
Definition WRONG_PASSWORD : string := "Wr0ng-P@ssword!".
Definition FIRST_TOKEN : string :=
  "wlt_000102030405060708090a0b0c0d0e0f101112131415161718191a1b1c1d1e1f202122232425262728292a2b2c2d2e2f".

(** The keystore that [createKeystore] writes for the wallet [default] in
    [world 20000], and the world it leaves. *)
Definition KEYSTORE : KeystoreFile :=
  {| ks_version := 1;
     name := "default";
     ks_created_at := 1767225600000;
     kdf := {| kdf_algorithm := "argon2id";
               time_cost := 6;
               memory_cost := 65536;
               parallelism := 4;
               salt := toString_hex (map (entropy (world 20000)) (seq 0 32)) |};
     ks_cipher :=
       {| cipher_algorithm := "aes-256-gcm";
          iv := toString_hex
                  (map (fun i => entropy (world 20000) (32 + i)%nat) (seq 0 12));
          auth_tag :=
            toString_hex
              ((list_byte_of_string PASSWORD
                ++ map (entropy (world 20000)) (seq 0 32))
               ++ map (fun i => entropy (world 20000) (32 + i)%nat) (seq 0 12));
          ciphertext := toString_hex (list_byte_of_string MNEMONIC) |};
     addresses_ethereum := ["0x9858EfFD232B4033E47d90003D41EC34EcaEda94"];
     addresses_solana := ["HAgk14JpMQLgt6rVgv7cBQFJWFto5Dqxi472uT3DKpqk"];
     ethereum_path := "m/44'/60'/0'/0/{i}";
     solana_path := "m/44'/501'/{i}'/0'" |}.

Definition with_wallet : World :=
  (createKeystore "/w" "default" MNEMONIC PASSWORD (world 20000)).2.

(** [k] unlock attempts with a wrong password, twenty seconds apart. *)
Fixpoint failed_unlocks (k : nat) (w : World) : World :=
  match k with
  | O => w
  | S k' =>
      (unlock "/w" "default" WRONG_PASSWORD (Some 3600) (failed_unlocks k' w)).2
  end.

(** A session of one hour, then a second session of one second for the
    same wallet. *)
Definition first_issue : Result string * World :=
  createSession "/w" "default" MNEMONIC (Some 3600) (world 1).

Definition second_issue : Result string * World :=
  createSession "/w" "default" MNEMONIC (Some 1) first_issue.2.

(** The records the two calls store. *)
Definition first_record : SessionFile :=
  {| version := 1;
     wallet_name := "default";
     token_id := "000102030405060708090a0b0c0d0e0f";
     hmac := "101112131415161718191a1b1c1d1e1f202122232425262728292a2b2c2d2e2f000102030405060708090a0b0c0d0e0f";
     hkdf_salt := "303132333435363738393a3b3c3d3e3f404142434445464748494a4b4c4d4e4f";
     cipher :=
       {| cipher_algorithm := "aes-256-gcm";
          iv := "505152535455565758595a5b";
          auth_tag := "101112131415161718191a1b1c1d1e1f202122232425262728292a2b2c2d2e2f303132333435363738393a3b3c3d3e3f404142434445464748494a4b4c4d4e4f505152535455565758595a5b";
          ciphertext := toString_hex (list_byte_of_string MNEMONIC) |};
     created_at := 1767225600000;
     expires_at := 1767229200000 |}.

Definition second_record : SessionFile :=
  {| version := 1;
     wallet_name := "default";
     token_id := "5c5d5e5f606162636465666768696a6b";
     hmac := "6c6d6e6f707172737475767778797a7b7c7d7e7f808182838485868788898a8b5c5d5e5f606162636465666768696a6b";
     hkdf_salt := "8c8d8e8f909192939495969798999a9b9c9d9e9fa0a1a2a3a4a5a6a7a8a9aaab";
     cipher :=
       {| cipher_algorithm := "aes-256-gcm";
          iv := "acadaeafb0b1b2b3b4b5b6b7";
          auth_tag := "6c6d6e6f707172737475767778797a7b7c7d7e7f808182838485868788898a8b8c8d8e8f909192939495969798999a9b9c9d9e9fa0a1a2a3a4a5a6a7a8a9aaabacadaeafb0b1b2b3b4b5b6b7";
          ciphertext := toString_hex (list_byte_of_string MNEMONIC) |};
     created_at := 1767225600001;
     expires_at := 1767225601001 |}.

(** The record of the first session with another wallet name, another
    creation time and the expiry moved ten years on. *)
Definition tampered : SessionFile :=
  {| version := 1;
     wallet_name := "another";
     token_id := "000102030405060708090a0b0c0d0e0f";
     hmac := "101112131415161718191a1b1c1d1e1f202122232425262728292a2b2c2d2e2f000102030405060708090a0b0c0d0e0f";
     hkdf_salt := "303132333435363738393a3b3c3d3e3f404142434445464748494a4b4c4d4e4f";
     cipher :=
       {| cipher_algorithm := "aes-256-gcm";
          iv := "505152535455565758595a5b";
          auth_tag := "101112131415161718191a1b1c1d1e1f202122232425262728292a2b2c2d2e2f303132333435363738393a3b3c3d3e3f404142434445464748494a4b4c4d4e4f505152535455565758595a5b";
          ciphertext := toString_hex (list_byte_of_string MNEMONIC) |};
     created_at := 0;
     expires_at := 1767225600000 + 315360000000 |}.

Definition tampered_world : World :=
  {| files := <[getSessionPath "/w" "default" := SessionJson tampered]>
                (files first_issue.2);
     clock := fun i => clock first_issue.2 i + 86400000;
     entropy := entropy first_issue.2 |}.

(** A wallet three failures into its backoff, read at a given time. *)
Definition backoff_record : LockoutRecord :=
  {| failed_attempts := 3;
     last_failed_at := Some 1767225600000;
     locked_until := None |}.

Definition backing_off (reading : Z) : World :=
  {| files := {[ getLockoutPath "/w" "default" := LockoutJson backoff_record ]};
     clock := fun _ => reading;
     entropy := fun _ => x00 |}.

(** The wallet after five wrong passwords, and the lockout record that the
    fifth one leaves. *)
Definition locked_wallet : World := failed_unlocks 5 with_wallet.

Definition locked_record : LockoutRecord :=
  {| failed_attempts := 5;
     last_failed_at := Some 1767225780000;
     locked_until := Some 1767226700000 |}.

(** A record four failures in, and the worlds left by one more failure
    recorded on it and by a first failure recorded on the empty record. *)
Definition four_failures : LockoutRecord :=
  {| failed_attempts := 4;
     last_failed_at := Some 1767225000000;
     locked_until := None |}.

Definition after_fifth_failure : World :=
  (recordFailedAttempt "/w" "default" four_failures (world 20000)).2.

Definition after_first_failure (step : Z) : World :=
  (recordFailedAttempt "/w" "default" EMPTY_LOCKOUT (world step)).2.

(** Stand-ins for the text of a JSON file, for the words of drawn
    entropy and for the ISO form of a time. *)
Definition stringify (f : File) : string := "{}".

Definition words (drawn : bytes) : string := toString_hex drawn.

Definition iso (ms : Z) : string := pretty ms.

(** What [init] reports for the wallet [default] in [world 20000]. *)
Definition init_output : InitOutput :=
  {| out_name := "default";
     out_ethereum := "0x9858EfFD232B4033E47d90003D41EC34EcaEda94";
     out_solana := "HAgk14JpMQLgt6rVgv7cBQFJWFto5Dqxi472uT3DKpqk";
     mnemonic_file := "/w/default.mnemonic" |}.

(** A session of one hour issued by the hardened engine, the record it
    stores, and that record with another wallet name, another creation time
    and the expiry moved ten years on. *)
Definition hardened_issue : Result string * World :=
  Hardened.createSession iso "/w" "default" MNEMONIC (Some 3600) (world 1).

Definition hardened_record : SessionFile :=
  Eval vm_compute in
    match files hardened_issue.2 !! getSessionPath "/w" "default" with
    | Some (SessionJson r) => r
    | _ => first_record
    end.



End Standin.

(** * Properties *)

(** ** Strings, hexadecimal, paths *)

Lemma prefix_empty (s : string) : String.prefix EmptyString s = true.
Proof. destruct s; reflexivity. Qed.

Lemma prefix_append (p s : string) : String.prefix p (p +:+ s) = true.
Proof.
  induction p as [|a p IH]; simpl.
  - apply prefix_empty.
  - destruct (ascii_dec a a) as [_|ne]; [exact IH | contradiction].
Qed.

Lemma slice_append (p s : string) : slice (String.length p) (p +:+ s) = s.
Proof. induction p as [|a p IH]; simpl; [destruct s; reflexivity | exact IH]. Qed.

Lemma append_cancel_l (p s t : string) : p +:+ s = p +:+ t -> s = t.
Proof.
  induction p as [|a p IH]; simpl; intros H; [exact H|].
  injection H as H. exact (IH H).
Qed.

Lemma hex_pair_digits (x : byte) :
  hex_pair (hex_digit (Byte.to_N x / 16)) (hex_digit (Byte.to_N x mod 16))
  = Some x.
Proof. destruct x; vm_compute; reflexivity. Qed.

(** Decoding undoes encoding: [Buffer.from(buf.toString('hex'), 'hex')]. *)
Lemma from_hex_toString_hex (b : bytes) : from_hex (toString_hex b) = b.
Proof.
  induction b as [|x b IH]; [reflexivity|].
  cbn [toString_hex from_hex]. rewrite hex_pair_digits, IH. reflexivity.
Qed.


Lemma session_path_not_token_path (d n : string) :
  getSessionPath d n <> getTokenFilePath d n.
Proof.
  unfold getSessionPath, getTokenFilePath, join. intros H.
  do 3 apply append_cancel_l in H. discriminate H.
Qed.

(** ** Running the session engine *)

(** Unfold the effect primitives and project the resulting pairs. *)
Ltac io :=
  unfold bind, ret, throw, try_catch, of_result, fileExists, readFile,
    writeFile, unlink, now, randomBytes;
  cbn [negb fst snd files clock entropy].

Section SessionFacts.
Context `{RT : Runtime}.

(** What [createSession] draws, returns and writes. *)
Lemma createSession_run (d n m : string) (t : option Z) (w : World) :
  exists (id secret salt nonce ct tag : bytes),
    length id = TOKEN_ID_SIZE /\ length secret = TOKEN_SECRET_SIZE /\
    gcm_encrypt (deriveHkdfKey secret salt HKDF_INFO 32) nonce
      (list_byte_of_string m) = (ct, tag) /\
    (createSession d n m t w).1 = Ok (encodeToken id secret) /\
    files (createSession d n m t w).2 =
      <[getTokenFilePath d n := Text (encodeToken id secret)]>
        (<[getSessionPath d n :=
             SessionJson
               {| version := 1;
                  wallet_name := n;
                  token_id := toString_hex id;
                  hmac := toString_hex (hmacSha256 secret id);
                  hkdf_salt := toString_hex salt;
                  cipher := {| cipher_algorithm := "aes-256-gcm";
                               iv := toString_hex nonce;
                               auth_tag := toString_hex tag;
                               ciphertext := toString_hex ct |};
                  created_at := clock w 0;
                  expires_at :=
                    clock w 0
                    + Z.min (default DEFAULT_DURATION t) MAX_DURATION * 1000 |}]>
           (files w)).
Proof.
  unfold createSession, secureRandom, encryptAesGcm, bind, randomBytes, now,
    writeFile, ret.
  cbn [fst snd files clock entropy].
  match goal with
  | |- context [gcm_encrypt ?k ?i ?p] =>
      destruct (gcm_encrypt k i p) as [ct tag] eqn:E
  end.
  cbn [fst snd files clock entropy].
  eexists _, _, _, _, ct, tag.
  split; [|split; [|split; [exact E|split; reflexivity]]]; reflexivity.
Qed.

(** No stored record: session-not-found, and nothing changes. *)
Lemma validateSession_absent (d n tok : string) (w : World) :
  files w !! getSessionPath d n = None ->
  validateSession d n tok w
  = (Throw (WalletError ERR_SESSION_NOT_FOUND "No active session found"), w).
Proof.
  intros H. unfold validateSession, bind, fileExists. rewrite H. reflexivity.
Qed.

(** An expired record: the session file and the token file are removed and
    the outcome is session-expired, whatever the token. *)
Lemma validateSession_expired (d n tok : string) (w : World) (r : SessionFile) :
  files w !! getSessionPath d n = Some (SessionJson r) ->
  expires_at r < clock w 0 ->
  (validateSession d n tok w).1
  = Throw (WalletError ERR_SESSION_EXPIRED "Session has expired")
  /\ files (validateSession d n tok w).2
     = delete (getTokenFilePath d n) (delete (getSessionPath d n) (files w)).
Proof.
  intros H Hexp. apply Z.ltb_lt in Hexp.
  unfold validateSession, readSessionFile, revokeSession. io.
  rewrite H. io. rewrite H. io. rewrite Hexp. io. rewrite H. io.
  destruct (delete (getSessionPath d n) (files w) !! getTokenFilePath d n) eqn:E;
    cbn [fst snd files]; split; try reflexivity.
  symmetry. apply delete_id. exact E.
Qed.

(** An unexpired record: the store is left alone and the outcome is decided
    by the token, the stored token-id and tag, and the decipher. *)
Lemma validateSession_live (d n tok : string) (w : World) (r : SessionFile) :
  files w !! getSessionPath d n = Some (SessionJson r) ->
  clock w 0 <= expires_at r ->
  files (validateSession d n tok w).2 = files w /\
  (validateSession d n tok w).1 =
    match decodeToken tok with
    | Throw e => Throw e
    | Ok (tokenId, tokenSecret) =>
        if negb (String.eqb (toString_hex tokenId) (token_id r)) then
          Throw (WalletError ERR_SESSION_INVALID "Invalid session token")
        else if negb (String.eqb (toString_hex (hmacSha256 tokenSecret tokenId))
                        (hmac r)) then
          Throw (WalletError ERR_SESSION_INVALID "Invalid session token")
        else
          match gcm_decrypt
                  (deriveHkdfKey tokenSecret (from_hex (hkdf_salt r)) HKDF_INFO 32)
                  (from_hex (iv (cipher r))) (from_hex (auth_tag (cipher r)))
                  (from_hex (ciphertext (cipher r))) with
          | Ok p => Ok (string_of_list_byte p)
          | Throw e => Throw e
          end
    end.
Proof.
  intros H Hlive. apply Z.ltb_ge in Hlive.
  unfold validateSession, readSessionFile, decryptAesGcm. io.
  rewrite H. io. rewrite H. io. rewrite Hlive.
  destruct (decodeToken tok) as [[id sec]|e]; io; [|split; reflexivity].
  destruct (negb (String.eqb (toString_hex id) (token_id r))); io;
    [split; reflexivity|].
  destruct (negb (String.eqb (toString_hex (hmacSha256 sec id)) (hmac r))); io;
    [split; reflexivity|].
  destruct (gcm_decrypt _ _ _ _); split; reflexivity.
Qed.

(** A token assembled from a 16-byte id and a 32-byte secret decodes to
    them. *)
Lemma decodeToken_encodeToken (id secret : bytes) :
  base64url_roundtrip ->
  length id = TOKEN_ID_SIZE -> length secret = TOKEN_SECRET_SIZE ->
  decodeToken (encodeToken id secret) = Ok (id, secret).
Proof.
  intros Hb Hid Hsec. unfold decodeToken, encodeToken, startsWith.
  rewrite prefix_append, slice_append, Hb. cbn [negb].
  rewrite length_app, Hid, Hsec. cbn [Nat.eqb negb TOKEN_ID_SIZE TOKEN_SECRET_SIZE Nat.add].
  rewrite <- Hid at 1 2. rewrite take_app_length, drop_app_length. reflexivity.
Qed.

(** A token is rejected by [decodeToken] only as session-invalid. *)
Lemma decodeToken_throws (token : string) (e : Exn) :
  decodeToken token = Throw e -> exn_code e = ERR_SESSION_INVALID.
Proof.
  unfold decodeToken.
  destruct (negb (startsWith token TOKEN_PREFIX)); [intros [= <-]; reflexivity|].
  destruct (negb _); [intros [= <-]; reflexivity | discriminate].
Qed.

(** C9. Session lifetime bound: whatever the world, [createSession] returns
    a token and persists a session record whose [created_at] is the clock
    reading it took and whose [expires_at] is that same reading plus
    [min(duration, 86400)] seconds when a duration is given and plus 3600
    seconds when it is not (timestamps are in milliseconds). *)
Theorem createSession_lifetime (d n m : string) (t : option Z) (w : World) :
  exists token rec,
    (createSession d n m t w).1 = Ok token /\
    files (createSession d n m t w).2 !! getSessionPath d n
      = Some (SessionJson rec) /\
    created_at rec = clock w 0 /\
    expires_at rec =
      created_at rec
      + 1000 * match t with Some s => Z.min s 86400 | None => 3600 end.
Proof.
  destruct (createSession_run d n m t w)
    as (id & secret & salt & nonce & ct & tag & _ & _ & _ & Hres & Hfiles).
  eexists _, _. split; [exact Hres|]. rewrite Hfiles.
  rewrite lookup_insert_ne by (apply not_eq_sym, session_path_not_token_path).
  rewrite lookup_insert_eq. split; [reflexivity|]. cbn [created_at expires_at].
  split; [reflexivity|].
  destruct t as [s|]; cbv [DEFAULT_DURATION MAX_DURATION default Datatypes.id]; lia.
Qed.


(** The malformed tokens are those [decodeToken] rejects. *)
Lemma malformed_decodeToken (token : string) :
  malformed token <-> exists e, decodeToken token = Throw e.
Proof.
  unfold malformed, decodeToken.
  destruct (startsWith token TOKEN_PREFIX); cbn [negb].
  - destruct (Nat.eqb_spec
                (length (from_base64url (slice (String.length TOKEN_PREFIX) token)))
                (TOKEN_ID_SIZE + TOKEN_SECRET_SIZE)) as [Heq|Hne]; cbn [negb].
    + split; [intros [H|H]; [discriminate | contradiction] | intros [e H]; discriminate].
    + split; [eauto | right; exact Hne].
  - split; [eauto | left; reflexivity].
Qed.

(** C2. On the code, the claim fails: [createSession] writes the bearer
    token itself to the wallet's [.token] file.  The file decodes, with
    [decodeToken], to the token-id and the 32-byte token-secret under which
    the stored integrity tag was computed, so the persisted state alone
    holds the token-secret. *)
Theorem createSession_persists_token_secret
    (d n m : string) (t : option Z) (w : World) :
  base64url_roundtrip ->
  exists token tokenId tokenSecret rec,
    (createSession d n m t w).1 = Ok token /\
    files (createSession d n m t w).2 !! getTokenFilePath d n
      = Some (Text token) /\
    decodeToken token = Ok (tokenId, tokenSecret) /\
    length tokenSecret = TOKEN_SECRET_SIZE /\
    files (createSession d n m t w).2 !! getSessionPath d n
      = Some (SessionJson rec) /\
    hmac rec = toString_hex (hmacSha256 tokenSecret tokenId).
Proof.
  intros Hb.
  destruct (createSession_run d n m t w)
    as (id & secret & salt & nonce & ct & tag & Hid & Hsec & _ & Hres & Hfiles).
  eexists _, id, secret, _. split; [exact Hres|]. rewrite Hfiles.
  split; [apply lookup_insert_eq|].
  split; [apply decodeToken_encodeToken; assumption|].
  split; [exact Hsec|].
  rewrite lookup_insert_ne by (apply not_eq_sym, session_path_not_token_path).
  rewrite lookup_insert_eq. split; reflexivity.
Qed.

(** C1. On the code, the claim fails: the stored tag is the HMAC of the
    token-id alone, and [validateSession] recomputes it from the token, not
    from the record.  A record that keeps the token-id, the tag, the salt
    and the cipher parameters of the issued one, whatever its wallet name,
    version, creation time and (unexpired) expiry time, validates with the
    issued token and yields the secret. *)
Theorem validateSession_accepts_tampered_record
    (d n m : string) (t : option Z) (w : World) :
  base64url_roundtrip -> gcm_correct ->
  exists token rec,
    (createSession d n m t w).1 = Ok token /\
    files (createSession d n m t w).2 !! getSessionPath d n
      = Some (SessionJson rec) /\
    forall (rec' : SessionFile) (w' : World),
      token_id rec' = token_id rec -> hmac rec' = hmac rec ->
      hkdf_salt rec' = hkdf_salt rec -> cipher rec' = cipher rec ->
      files w' !! getSessionPath d n = Some (SessionJson rec') ->
      clock w' 0 <= expires_at rec' ->
      (validateSession d n token w').1 = Ok m.
Proof.
  intros Hb Hgcm.
  destruct (createSession_run d n m t w)
    as (id & secret & salt & nonce & ct & tag & Hid & Hsec & Hseal & Hres & Hfiles).
  eexists _, _. split; [exact Hres|]. rewrite Hfiles.
  rewrite lookup_insert_ne by (apply not_eq_sym, session_path_not_token_path).
  rewrite lookup_insert_eq. split; [reflexivity|].
  intros rec' w' Htid Hmac Hsalt Hcipher Hfile Hlive.
  destruct (validateSession_live d n (encodeToken id secret) w' rec' Hfile Hlive)
    as [_ ->].
  rewrite decodeToken_encodeToken by assumption.
  rewrite Htid, Hmac, Hsalt, Hcipher.
  cbn [token_id hmac hkdf_salt cipher iv auth_tag ciphertext].
  rewrite !String.eqb_refl. cbn [negb].
  rewrite !from_hex_toString_hex, (Hgcm _ _ _ _ _ Hseal).
  rewrite string_of_list_byte_of_string. reflexivity.
Qed.

(** C3, as amended.  A malformed token is rejected as session-invalid only
    once a stored, unexpired session record has been found: with no record
    [validateSession] fails session-not-found, with an expired record it
    deletes the record and fails session-expired; the store is unchanged in
    the first and in the last case. *)
Theorem validateSession_malformed_token (d n token : string) (w : World) :
  malformed token ->
  (files w !! getSessionPath d n = None ->
     failure (validateSession d n token w).1 = Some ERR_SESSION_NOT_FOUND /\
     files (validateSession d n token w).2 = files w) /\
  (forall r, files w !! getSessionPath d n = Some (SessionJson r) ->
     expires_at r < clock w 0 ->
     failure (validateSession d n token w).1 = Some ERR_SESSION_EXPIRED /\
     files (validateSession d n token w).2 !! getSessionPath d n = None) /\
  (forall r, files w !! getSessionPath d n = Some (SessionJson r) ->
     clock w 0 <= expires_at r ->
     failure (validateSession d n token w).1 = Some ERR_SESSION_INVALID /\
     files (validateSession d n token w).2 = files w).
Proof.
  intros Hbad. apply malformed_decodeToken in Hbad as [e He].
  split; [|split].
  - intros H. rewrite (validateSession_absent _ _ _ _ H). split; reflexivity.
  - intros r H Hexp.
    destruct (validateSession_expired d n token w r H Hexp) as [-> ->].
    split; [reflexivity|].
    destruct (decide (getTokenFilePath d n = getSessionPath d n)) as [->|Hne].
    + apply lookup_delete_eq.
    + rewrite lookup_delete_ne by exact Hne. apply lookup_delete_eq.
  - intros r H Hlive.
    destruct (validateSession_live d n token w r H Hlive) as [-> ->].
    rewrite He. cbn [failure]. rewrite (decodeToken_throws _ _ He).
    split; reflexivity.
Qed.

(** C10, as amended.  The session path depends on the wallet directory
    and name only, and [createSession] overwrites whatever is stored there.
    A token issued earlier for the same wallet, when its token-id is not the
    stored one, fails with session-invalid for as long as the stored record
    is unexpired, leaving the store as it is; once the stored record has
    expired the same token fails with session-expired. *)
Theorem createSession_replaces_session
    (d n mA mB : string) (tA tB : option Z) (wA wB : World) :
  base64url_roundtrip ->
  exists tokenA idA secretA recB,
    (createSession d n mA tA wA).1 = Ok tokenA /\
    decodeToken tokenA = Ok (idA, secretA) /\
    files (createSession d n mB tB wB).2 !! getSessionPath d n
      = Some (SessionJson recB) /\
    forall w : World,
      files w !! getSessionPath d n = Some (SessionJson recB) ->
      toString_hex idA <> token_id recB ->
      (clock w 0 <= expires_at recB ->
         failure (validateSession d n tokenA w).1 = Some ERR_SESSION_INVALID /\
         files (validateSession d n tokenA w).2 = files w) /\
      (expires_at recB < clock w 0 ->
         failure (validateSession d n tokenA w).1 = Some ERR_SESSION_EXPIRED).
Proof.
  intros Hb.
  destruct (createSession_run d n mA tA wA)
    as (idA & secA & _ & _ & _ & _ & HidA & HsecA & _ & HresA & _).
  destruct (createSession_run d n mB tB wB)
    as (idB & secB & saltB & nonceB & ctB & tagB & _ & _ & _ & _ & HfilesB).
  eexists _, idA, secA, _. split; [exact HresA|].
  split; [apply decodeToken_encodeToken; assumption|].
  rewrite HfilesB.
  rewrite lookup_insert_ne by (apply not_eq_sym, session_path_not_token_path).
  rewrite lookup_insert_eq. split; [reflexivity|].
  intros w Hfile Hne. split.
  - intros Hlive.
    destruct (validateSession_live d n (encodeToken idA secA) w _ Hfile Hlive)
      as [-> ->].
    rewrite decodeToken_encodeToken by assumption.
    apply String.eqb_neq in Hne. rewrite Hne. split; reflexivity.
  - intros Hexp.
    destruct (validateSession_expired d n (encodeToken idA secA) w _ Hfile Hexp)
      as [-> _].
    reflexivity.
Qed.

End SessionFacts.

(** ** Running the keystore *)

Section KeystoreFacts.
Context `{RT : Runtime}.

(** A successful [createKeystore] found no record, sealed the secret under
    the key of the password and a fresh salt, and wrote the record it
    returns. *)
Lemma createKeystore_run (d n s P : string) (w w1 : World) (ks : KeystoreFile) :
  createKeystore d n s P w = (Ok ks, w1) ->
  files w !! getKeystorePath d n = None /\
  files w1 = <[getKeystorePath d n := KeystoreJson ks]> (files w) /\
  exists salt nonce ct tag,
    gcm_encrypt
      (argon2_hash P salt DEFAULT_TIME_COST DEFAULT_MEMORY_COST DEFAULT_PARALLELISM)
      nonce (list_byte_of_string s) = (ct, tag) /\
    kdf ks = {| kdf_algorithm := "argon2id";
                time_cost := DEFAULT_TIME_COST;
                memory_cost := DEFAULT_MEMORY_COST;
                parallelism := DEFAULT_PARALLELISM;
                salt := toString_hex salt |} /\
    ks_cipher ks = {| cipher_algorithm := "aes-256-gcm";
                      iv := toString_hex nonce;
                      auth_tag := toString_hex tag;
                      ciphertext := toString_hex ct |}.
Proof.
  unfold createKeystore, encryptMnemonic, deriveKeyFromPassword, encryptAesGcm,
    bind, fileExists, randomBytes, now, writeFile, of_result, ret, throw.
  destruct (files w !! getKeystorePath d n) eqn:Hfile; [discriminate|].
  cbn [fst snd files clock entropy mbind option_bind default].
  match goal with
  | |- context [gcm_encrypt ?k ?i ?p] =>
      destruct (gcm_encrypt k i p) as [ct tag] eqn:E
  end.
  cbn [fst snd files clock entropy].
  destruct (deriveAddresses s 0) as [addr|e]; [|discriminate].
  cbn [fst snd files clock entropy]. intros [= <- <-].
  cbn [files kdf ks_cipher]. split; [reflexivity|]. split; [reflexivity|].
  eexists _, _, ct, tag. split; [exact E|]. split; reflexivity.
Qed.


(** [decryptKeystore] on a stored record: the outcome is decided by what
    the decipher does, and the world is left as it was. *)
Lemma decryptKeystore_present (d n Q : string) (w : World) (ks : KeystoreFile) :
  files w !! getKeystorePath d n = Some (KeystoreJson ks) ->
  decryptKeystore d n Q w =
    match gcm_decrypt
            (argon2_hash Q (from_hex (salt (kdf ks))) (time_cost (kdf ks))
               (memory_cost (kdf ks)) (parallelism (kdf ks)))
            (from_hex (iv (ks_cipher ks))) (from_hex (auth_tag (ks_cipher ks)))
            (from_hex (ciphertext (ks_cipher ks))) with
    | Ok plaintext => (Ok (string_of_list_byte plaintext), w)
    | Throw error => (Throw (reported error), w)
    end.
Proof.
  intros Hfile.
  unfold decryptKeystore, readKeystore, decryptMnemonic, deriveKeyFromPassword,
    decryptAesGcm, bind, try_catch, of_result, fileExists, readFile, ret, throw.
  rewrite Hfile. cbn [negb fst snd files]. rewrite Hfile.
  cbn [fst snd mbind option_bind default o_time_cost o_memory_cost o_parallelism].
  destruct (gcm_decrypt _ _ _ _) as [plaintext|error]; [reflexivity|].
  unfold reported. destruct (_ || _); reflexivity.
Qed.

Lemma decryptKeystore_absent (d n Q : string) (w : World) :
  files w !! getKeystorePath d n = None ->
  decryptKeystore d n Q w =
    (Throw (WalletError ERR_WALLET_NOT_FOUND
              ("Wallet " +:+ dquote +:+ n +:+ dquote +:+ " not found")), w).
Proof.
  intros Hfile. unfold decryptKeystore, readKeystore, bind, fileExists, throw.
  rewrite Hfile. reflexivity.
Qed.

(** [createKeystore] succeeds when no record is stored under the name and
    the addresses of the secret can be derived. *)
Lemma createKeystore_succeeds (d n secret P : string) (w : World)
    (a : string * string) :
  files w !! getKeystorePath d n = None ->
  deriveAddresses secret 0 = Ok a ->
  exists ks, (createKeystore d n secret P w).1 = Ok ks.
Proof.
  intros Hfile Hderive.
  unfold createKeystore, encryptMnemonic, deriveKeyFromPassword, encryptAesGcm,
    bind, fileExists, randomBytes, now, writeFile, of_result, ret, throw.
  rewrite Hfile. cbn [fst snd files clock entropy].
  destruct (gcm_encrypt _ _ _) as [ct tag]. cbn [fst snd files clock entropy].
  rewrite Hderive. cbn [fst snd]. eexists. reflexivity.
Qed.

(** C8. Keystore round-trip: [createKeystore] with a secret and a password
    succeeds when no record is stored under the name and the addresses of
    the secret can be derived; and whenever it succeeds, the record it wrote
    is the one it returns, and [decryptKeystore] with the same password, in
    the resulting world or in any later world that still holds that record,
    returns the secret and changes nothing. *)
Theorem keystore_roundtrip (d n secret P : string) (w : World) :
  gcm_correct ->
  (files w !! getKeystorePath d n = None ->
   (exists a, deriveAddresses secret 0 = Ok a) ->
   exists ks, (createKeystore d n secret P w).1 = Ok ks) /\
  (forall ks : KeystoreFile,
     (createKeystore d n secret P w).1 = Ok ks ->
     files (createKeystore d n secret P w).2 !! getKeystorePath d n
     = Some (KeystoreJson ks) /\
     forall w2 : World,
       files w2 !! getKeystorePath d n = Some (KeystoreJson ks) ->
       decryptKeystore d n P w2 = (Ok secret, w2)).
Proof.
  intros Hgcm. split.
  { intros Hfile [a Hderive]. exact (createKeystore_succeeds _ _ _ _ _ a Hfile Hderive). }
  intros ks Hcreate.
  destruct (createKeystore d n secret P w) as [res w1] eqn:Hrun.
  cbn [fst snd] in *. subst res.
  destruct (createKeystore_run _ _ _ _ _ _ _ Hrun)
    as (_ & Hfiles & slt & nonce & ct & tag & Hseal & Hkdf & Hcipher).
  split; [rewrite Hfiles; apply lookup_insert_eq|].
  intros w2 Hfile. rewrite (decryptKeystore_present _ _ _ _ _ Hfile).
  rewrite Hkdf, Hcipher.
  cbn [salt time_cost memory_cost parallelism iv auth_tag ciphertext].
  rewrite !from_hex_toString_hex, (Hgcm _ _ _ _ _ Hseal).
  rewrite string_of_list_byte_of_string. reflexivity.
Qed.


End KeystoreFacts.

(** ** Running the lockout guard *)

Section LockoutFacts.
Context `{RT : Runtime}.

(** [readLockoutRecord] never fails and never writes: it gives the stored
    lockout record, or the empty one. *)
Lemma readLockoutRecord_run (d n : string) (w : World) :
  exists r,
    readLockoutRecord d n w = (Ok r, w) /\
    (files w !! getLockoutPath d n = Some (LockoutJson r) \/ r = EMPTY_LOCKOUT) /\
    (forall r0, files w !! getLockoutPath d n = Some (LockoutJson r0) -> r = r0).
Proof.
  unfold readLockoutRecord, parseLockoutRecord, bind, try_catch, fileExists,
    readFile, ret, throw.
  destruct (files w !! getLockoutPath d n) as [[k|s|r|t]|] eqn:Hfile;
    cbn [negb fst snd]; rewrite ?Hfile; cbn [fst snd];
    eexists; (split; [reflexivity|]); split; auto; try discriminate.
  intros r0 [= ->]. reflexivity.
Qed.

(** The two ways [checkLockout] ends: it throws the locked-out outcome and
    leaves the store alone, or it returns a record without a lock
    timestamp, having at most replaced an expired lock by the empty
    record. *)
Lemma checkLockout_cases (d n : string) (w : World) :
  (exists msg,
     (checkLockout d n w).1 = Throw (WalletError ERR_WALLET_LOCKED msg) /\
     files (checkLockout d n w).2 = files w) \/
  (exists r,
     (checkLockout d n w).1 = Ok r /\ locked_until r = None /\
     (files (checkLockout d n w).2 = files w \/
      files (checkLockout d n w).2
      = <[getLockoutPath d n := LockoutJson EMPTY_LOCKOUT]> (files w))).
Proof.
  destruct (readLockoutRecord_run d n w) as (r & Hread & _ & _).
  unfold checkLockout, bind. rewrite Hread.
  unfold now, writeLockoutRecord, writeFile, throw, ret, bind.
  destruct (locked_until r) as [lu|] eqn:Hlu; cbn [fst snd files clock].
  - destruct (clock w 0 <? lu); cbn [fst snd files clock].
    + left. eexists. split; reflexivity.
    + right. exists EMPTY_LOCKOUT. cbn. auto.
  - destruct (0 <? failed_attempts r); [|right; exists r; cbn; auto].
    destruct (last_failed_at r) as [t|]; [|right; exists r; cbn; auto].
    cbn [fst snd files clock].
    destruct (clock w 0 <? _); cbn [fst snd files].
    + left. eexists. split; reflexivity.
    + right. exists r. auto.
Qed.

Lemma recordFailedAttempt_run (d n : string) (r : LockoutRecord) (w : World) :
  (recordFailedAttempt d n r w).1 = Ok tt /\
  files (recordFailedAttempt d n r w).2 =
    <[getLockoutPath d n :=
        LockoutJson
          {| failed_attempts := failed_attempts r + 1;
             last_failed_at := Some (clock w 0);
             locked_until :=
               if MAX_FAILED_ATTEMPTS <=? failed_attempts r + 1
               then Some (clock w 1 + LOCKOUT_DURATION_MS)
               else locked_until r |}]> (files w).
Proof.
  unfold recordFailedAttempt, writeLockoutRecord, writeFile, now, bind, ret.
  cbn [fst snd files clock].
  destruct (MAX_FAILED_ATTEMPTS <=? failed_attempts r + 1);
    cbn [fst snd files clock]; split; reflexivity.
Qed.

Lemma recordSuccess_run (d n : string) (w : World) :
  (recordSuccess d n w).1 = Ok tt /\
  files (recordSuccess d n w).2 = delete (getLockoutPath d n) (files w).
Proof.
  unfold recordSuccess, fileExists, unlink, bind, ret. cbn [fst snd].
  destruct (files w !! getLockoutPath d n) eqn:Hfile; cbn [fst snd files];
    split; try reflexivity.
  symmetry. apply delete_id. exact Hfile.
Qed.


(** C7. Exponential backoff timing: for a stored lockout record with
    counter [n], [1 <= n < 5], no lock timestamp and last failure at [t],
    [checkLockout] fails with the locked-out outcome exactly when the clock
    reads strictly less than [t + 1000 * 2^(n-1)] milliseconds, and
    otherwise succeeds and returns the record; the store is unchanged either
    way. *)
Theorem checkLockout_backoff (d n : string) (w : World) (r : LockoutRecord)
    (t : Z) :
  files w !! getLockoutPath d n = Some (LockoutJson r) ->
  1 <= failed_attempts r < 5 ->
  locked_until r = None ->
  last_failed_at r = Some t ->
  (clock w 0 < t + 1000 * 2 ^ (failed_attempts r - 1) ->
     failure (checkLockout d n w).1 = Some ERR_WALLET_LOCKED /\
     files (checkLockout d n w).2 = files w) /\
  (t + 1000 * 2 ^ (failed_attempts r - 1) <= clock w 0 ->
     (checkLockout d n w).1 = Ok r /\
     files (checkLockout d n w).2 = files w).
Proof.
  intros Hfile Hn Hlock Hlast.
  destruct (readLockoutRecord_run d n w) as (r' & Hread & _ & Hsame).
  rewrite (Hsame r Hfile) in Hread. clear r' Hsame.
  assert (Hpos : (0 <? failed_attempts r) = true) by (apply Z.ltb_lt; lia).
  unfold checkLockout, bind. rewrite Hread, Hlock.
  unfold now, throw, ret, bind. cbn [fst snd files clock].
  rewrite Hpos, Hlast. cbn [fst snd files clock]. unfold BASE_DELAY_MS.
  split; intros Hnow.
  - apply Z.ltb_lt in Hnow. rewrite Hnow. split; reflexivity.
  - apply Z.ltb_ge in Hnow. rewrite Hnow. split; reflexivity.
Qed.

Lemma lockout_ok_insert (store : gmap string File) (p : string) (f : File) :
  lockout_ok store ->
  (forall r, f = LockoutJson r -> is_Some (locked_until r) ->
             MAX_FAILED_ATTEMPTS <= failed_attempts r) ->
  lockout_ok (<[p := f]> store).
Proof.
  intros Hok Hf q r Hq. destruct (decide (p = q)) as [->|Hne].
  - rewrite lookup_insert_eq in Hq. injection Hq as ->. now apply Hf.
  - rewrite lookup_insert_ne in Hq by exact Hne. now apply (Hok q).
Qed.

Lemma lockout_ok_delete (store : gmap string File) (p : string) :
  lockout_ok store -> lockout_ok (delete p store).
Proof.
  intros Hok q r Hq. destruct (decide (p = q)) as [->|Hne].
  - rewrite lookup_delete_eq in Hq. discriminate.
  - rewrite lookup_delete_ne in Hq by exact Hne. now apply (Hok q).
Qed.

Lemma lockout_ok_empty_record (r : LockoutRecord) :
  LockoutJson EMPTY_LOCKOUT = LockoutJson r ->
  is_Some (locked_until r) -> MAX_FAILED_ATTEMPTS <= failed_attempts r.
Proof. intros [= <-] [x Hx]. discriminate. Qed.

(** [decryptKeystore] only reads. *)
Lemma decryptKeystore_world (d n Q : string) (w : World) :
  (decryptKeystore d n Q w).2 = w.
Proof.
  destruct (files w !! getKeystorePath d n) as [f|] eqn:Hfile.
  - destruct f as [ks|s|r|t];
      [rewrite (decryptKeystore_present _ _ _ _ _ Hfile);
       destruct (gcm_decrypt _ _ _ _); reflexivity | | | ];
      unfold decryptKeystore, readKeystore, bind, fileExists, readFile, throw;
      rewrite Hfile; cbn [negb fst snd]; rewrite Hfile; reflexivity.
  - rewrite (decryptKeystore_absent _ _ _ _ Hfile). reflexivity.
Qed.

Lemma createSession_lockout_ok (d n m : string) (t : option Z) (w : World) :
  lockout_ok (files w) -> lockout_ok (files (createSession d n m t w).2).
Proof.
  intros Hok.
  destruct (createSession_run d n m t w)
    as (id & secret & slt & nonce & ct & tag & _ & _ & _ & _ & ->).
  do 2 (apply lockout_ok_insert; [|discriminate]). exact Hok.
Qed.

(** The sequence that [unlock] and [export] share: check the lockout, try
    the password, record the failure or the success, and go on with the
    mnemonic.  It keeps the lockout invariant when what follows does. *)
Lemma guarded_decrypt_lockout_ok {A} (d n p : string) (k : string -> M A)
    (w : World) :
  (forall m w', lockout_ok (files w') -> lockout_ok (files (k m w').2)) ->
  lockout_ok (files w) ->
  lockout_ok
    (files
       ((let! lockoutRecord := checkLockout d n in
         let! mnemonic :=
           try_catch (decryptKeystore d n p)
             (fun error =>
                run! (match error with
                      | WalletError ERR_WRONG_PASSWORD _ =>
                          recordFailedAttempt d n lockoutRecord
                      | _ => ret tt
                      end) in
                throw error) in
         run! recordSuccess d n in
         k mnemonic) w).2).
Proof.
  intros Hk Hok. unfold bind at 1.
  pose proof (checkLockout_cases d n w) as Hcheck.
  destruct (checkLockout d n w) as [[r|e] w1]; cbn [fst snd] in Hcheck.
  2:{ cbn [snd].
      destruct Hcheck as [(msg & _ & ->)|(r & Hr & _)]; [exact Hok|discriminate]. }
  destruct Hcheck as [(msg & Hr & _)|(r' & [= <-] & Hlock & Hfiles)];
    [discriminate|].
  assert (Hok1 : lockout_ok (files w1)).
  { destruct Hfiles as [->| ->]; [exact Hok|].
    apply lockout_ok_insert; [exact Hok | apply lockout_ok_empty_record]. }
  unfold bind at 1, try_catch.
  pose proof (decryptKeystore_world d n p w1) as Hdec.
  destruct (decryptKeystore d n p w1) as [[mn|e] w2]; cbn [snd] in Hdec; subst w2.
  - unfold bind at 1.
    pose proof (recordSuccess_run d n w1) as [Hres Hfs].
    destruct (recordSuccess d n w1) as [[[]|e] w3]; cbn [fst snd] in Hres, Hfs;
      [|discriminate].
    apply Hk. rewrite Hfs. apply lockout_ok_delete. exact Hok1.
  - assert (Hfail : lockout_ok (files (recordFailedAttempt d n r w1).2)).
    { destruct (recordFailedAttempt_run d n r w1) as [_ ->].
      apply lockout_ok_insert; [exact Hok1|].
      intros r0 [= <-]. cbn [locked_until failed_attempts].
      destruct (Z.leb_spec MAX_FAILED_ATTEMPTS (failed_attempts r + 1));
        [intros _; assumption|].
      rewrite Hlock. intros [x Hx]. discriminate. }
    destruct e as [[] msg|msg]; unfold bind, ret, throw; cbn [fst snd];
      try exact Hok1.
    destruct (recordFailedAttempt d n r w1) as [[[]|e] w3]; cbn [snd] in *;
      exact Hfail.
Qed.

Lemma unlock_lockout_ok (d n p : string) (t : option Z) (w : World) :
  lockout_ok (files w) -> lockout_ok (files (unlock d n p t w).2).
Proof.
  intros Hok. unfold unlock.
  destruct (String.eqb p EmptyString); [exact Hok|].
  destruct t as [s|]; [|exact Hok].
  destruct (s <=? 0); [exact Hok|].
  apply (guarded_decrypt_lockout_ok d n p
           (fun mnemonic =>
              let! token := createSession d n mnemonic (Some s) in ret token));
    [|exact Hok].
  intros m w' Hok'. unfold bind, ret.
  pose proof (createSession_lockout_ok d n m (Some s) w' Hok') as Hcs.
  destruct (createSession d n m (Some s) w') as [[tok|e] w4]; exact Hcs.
Qed.

Lemma exportMnemonic_lockout_ok (d n p : string) (c : bool) (w : World) :
  lockout_ok (files w) -> lockout_ok (files (exportMnemonic d n p c w).2).
Proof.
  intros Hok. unfold exportMnemonic.
  destruct (negb c); [exact Hok|].
  destruct (String.eqb p EmptyString); [exact Hok|].
  apply (guarded_decrypt_lockout_ok d n p (fun mnemonic => ret mnemonic));
    [|exact Hok].
  intros m w' Hok'. exact Hok'.
Qed.

End LockoutFacts.

(** ** Failures and the store *)

Section StoreFacts.
Context `{RT : Runtime}.

Lemma revokeSession_run (d n : string) (w : World) :
  (revokeSession d n w).1 = Ok tt /\
  files (revokeSession d n w).2
  = delete (getTokenFilePath d n) (delete (getSessionPath d n) (files w)).
Proof.
  unfold revokeSession, fileExists, unlink, bind, ret. cbn [fst snd files].
  destruct (files w !! getSessionPath d n) eqn:Hs; cbn [fst snd files].
  - destruct (delete (getSessionPath d n) (files w) !! getTokenFilePath d n)
      eqn:Ht; cbn [fst snd files]; split; try reflexivity.
    symmetry. apply delete_id. exact Ht.
  - rewrite (delete_id _ _ Hs).
    destruct (files w !! getTokenFilePath d n) eqn:Ht; cbn [fst snd files];
      split; try reflexivity.
    symmetry. apply delete_id. exact Ht.
Qed.

(** [createKeystore] either leaves the store alone or succeeds and adds the
    record it returns. *)
Lemma createKeystore_files (d n s P : string) (w : World) :
  files (createKeystore d n s P w).2 = files w \/
  exists ks,
    (createKeystore d n s P w).1 = Ok ks /\
    files (createKeystore d n s P w).2
    = <[getKeystorePath d n := KeystoreJson ks]> (files w).
Proof.
  destruct (createKeystore d n s P w) as [[ks|e] w1] eqn:Hrun.
  - right. exists ks. split; [reflexivity|].
    apply createKeystore_run in Hrun as (_ & Hfiles & _). exact Hfiles.
  - left. revert Hrun.
    unfold createKeystore, encryptMnemonic, deriveKeyFromPassword, encryptAesGcm,
      bind, fileExists, randomBytes, now, writeFile, of_result, ret, throw.
    destruct (files w !! getKeystorePath d n); [intros [= _ <-]; reflexivity|].
    cbn [fst snd files clock entropy].
    destruct (gcm_encrypt _ _ _) as [ct tag]. cbn [fst snd files clock entropy].
    destruct (deriveAddresses s 0); [discriminate|].
    intros [= _ <-]. reflexivity.
Qed.

(** [validateSession] leaves the store alone unless it finds an expired
    record, which it deletes on the way to the session-expired outcome. *)
Lemma validateSession_files (d n token : string) (w : World) :
  files (validateSession d n token w).2 = files w \/
  exists r,
    files w !! getSessionPath d n = Some (SessionJson r) /\
    expires_at r < clock w 0 /\
    (validateSession d n token w).1
    = Throw (WalletError ERR_SESSION_EXPIRED "Session has expired") /\
    files (validateSession d n token w).2
    = delete (getTokenFilePath d n) (delete (getSessionPath d n) (files w)).
Proof.
  destruct (files w !! getSessionPath d n) as [f|] eqn:Hfile.
  - destruct f as [ks|r|lr|t];
      [ | destruct (Z.lt_ge_cases (expires_at r) (clock w 0)) as [Hexp|Hlive];
          [right; exists r;
           destruct (validateSession_expired d n token w r Hfile Hexp); auto
          |left; apply (validateSession_live d n token w r Hfile); lia] | | ];
      left;
      unfold validateSession, readSessionFile, bind, fileExists, readFile, throw;
      rewrite Hfile; cbn [negb fst snd]; rewrite Hfile; reflexivity.
  - left. rewrite (validateSession_absent _ _ _ _ Hfile). reflexivity.
Qed.

Lemma perform_throws {A} (m : M A) (w : World) (e : Exn) :
  (bind m (fun _ => ret tt) w).1 = Throw e ->
  (m w).1 = Throw e /\ (bind m (fun _ => ret tt) w).2 = (m w).2.
Proof.
  unfold bind, ret. destruct (m w) as [[a|e'] w']; cbn [fst snd];
    [discriminate | intros [= ->]; split; reflexivity].
Qed.

(** C4. Expiry self-enforcement: when the stored session record has an
    expiry time strictly before the clock reading, [validateSession] fails
    with the session-expired outcome and the record is gone from the store;
    and among the operations of the core, a failure changes the store in no
    other case than this one. *)
Theorem expired_session_is_deleted :
  (forall (d n token : string) (w : World) (r : SessionFile),
     files w !! getSessionPath d n = Some (SessionJson r) ->
     expires_at r < clock w 0 ->
     failure (validateSession d n token w).1 = Some ERR_SESSION_EXPIRED /\
     files (validateSession d n token w).2 !! getSessionPath d n = None) /\
  (forall (op : Operation) (w : World) (e : Exn),
     (perform op w).1 = Throw e ->
     files (perform op w).2 = files w \/
     exists d n token r,
       op = Validate d n token /\
       files w !! getSessionPath d n = Some (SessionJson r) /\
       expires_at r < clock w 0 /\
       exn_code e = ERR_SESSION_EXPIRED).
Proof.
  split.
  - intros d n token w r Hfile Hexp.
    destruct (validateSession_expired d n token w r Hfile Hexp) as [-> ->].
    split; [reflexivity|].
    destruct (decide (getTokenFilePath d n = getSessionPath d n)) as [->|Hne].
    + apply lookup_delete_eq.
    + rewrite lookup_delete_ne by exact Hne. apply lookup_delete_eq.
  - intros [d n s P|d n P|d n s t|d n token|d n|d n|d n r|d n] w e;
      cbn [perform]; intros Hthrow.
    + apply perform_throws in Hthrow as [Hthrow ->].
      destruct (createKeystore_files d n s P w) as [->|(ks & Hok & _)];
        [left; reflexivity | congruence].
    + apply perform_throws in Hthrow as [_ ->].
      rewrite decryptKeystore_world. left; reflexivity.
    + apply perform_throws in Hthrow as [Hthrow _].
      destruct (createSession_run d n s t w)
        as (? & ? & ? & ? & ? & ? & _ & _ & _ & Hok & _). congruence.
    + apply perform_throws in Hthrow as [Hthrow ->].
      destruct (validateSession_files d n token w)
        as [->|(r & Hfile & Hexp & Hres & _)]; [left; reflexivity|].
      right. exists d, n, token, r. repeat split; try assumption.
      rewrite Hres in Hthrow. injection Hthrow as <-. reflexivity.
    + destruct (revokeSession_run d n w) as [Hok _]. congruence.
    + apply perform_throws in Hthrow as [Hthrow ->].
      destruct (checkLockout_cases d n w) as [(msg & _ & ->)|(r & Hok & _)];
        [left; reflexivity | congruence].
    + destruct (recordFailedAttempt_run d n r w) as [Hok _]. congruence.
    + destruct (recordSuccess_run d n w) as [Hok _]. congruence.
Qed.

Lemma createKeystore_lockout_ok (d n s P : string) (w : World) :
  lockout_ok (files w) -> lockout_ok (files (createKeystore d n s P w).2).
Proof.
  intros Hok. destruct (createKeystore_files d n s P w) as [->|(ks & _ & ->)];
    [exact Hok|]. apply lockout_ok_insert; [exact Hok | discriminate].
Qed.

Lemma validateSession_lockout_ok (d n token : string) (w : World) :
  lockout_ok (files w) -> lockout_ok (files (validateSession d n token w).2).
Proof.
  intros Hok.
  destruct (validateSession_files d n token w) as [->|(r & _ & _ & _ & ->)];
    [exact Hok|]. do 2 apply lockout_ok_delete. exact Hok.
Qed.

(** Every reachable store satisfies the lockout invariant. *)
Lemma reachable_lockout_ok (w : World) : reachable w -> lockout_ok (files w).
Proof.
  induction 1 as [w Hempty|w w' _ IH Hsame|w d n p t _ IH|w d n p c _ IH
                 |w d n s p _ IH|w d n p _ IH|w d n t _ IH|w d n _ IH
                 |w path f _ IH Hf].
  - rewrite Hempty. intros p r Hp. rewrite lookup_empty in Hp. discriminate.
  - rewrite Hsame. exact IH.
  - apply unlock_lockout_ok, IH.
  - apply exportMnemonic_lockout_ok, IH.
  - apply createKeystore_lockout_ok, IH.
  - rewrite decryptKeystore_world. exact IH.
  - apply validateSession_lockout_ok, IH.
  - destruct (revokeSession_run d n w) as [_ ->].
    do 2 apply lockout_ok_delete. exact IH.
  - cbn [writeFile snd files]. apply lockout_ok_insert; [exact IH|].
    intros r Hr. destruct (Hf r Hr).
Qed.

(** C6. Lockout state machine.  [recordFailedAttempt] persists the record
    with the counter incremented by exactly one and the time of the failure;
    it sets the lock timestamp, to 15 minutes after the clock reading it
    then takes, when the new counter has reached 5, and leaves the lock
    field as it got it otherwise, which is unset for every record that
    [checkLockout] returns.  [recordSuccess] leaves no lockout record,
    whatever was stored.  Hence in every reachable store a lockout record
    with a lock timestamp has a counter of at least 5. *)
Theorem lockout_state_machine :
  (forall (d n : string) (r : LockoutRecord) (w : World),
     (recordFailedAttempt d n r w).1 = Ok tt /\
     exists r',
       files (recordFailedAttempt d n r w).2 !! getLockoutPath d n
         = Some (LockoutJson r') /\
       failed_attempts r' = failed_attempts r + 1 /\
       (5 <= failed_attempts r' ->
          locked_until r' = Some (clock w 1 + 15 * 60 * 1000)) /\
       (failed_attempts r' < 5 -> locked_until r' = locked_until r)) /\
  (forall (d n : string) (w : World) (r : LockoutRecord),
     (checkLockout d n w).1 = Ok r -> locked_until r = None) /\
  (forall (d n : string) (w : World),
     (recordSuccess d n w).1 = Ok tt /\
     files (recordSuccess d n w).2 !! getLockoutPath d n = None) /\
  (forall w : World,
     reachable w ->
     forall path r,
       files w !! path = Some (LockoutJson r) ->
       is_Some (locked_until r) -> 5 <= failed_attempts r).
Proof.
  split; [|split; [|split]].
  - intros d n r w. destruct (recordFailedAttempt_run d n r w) as [-> ->].
    split; [reflexivity|]. eexists. split; [apply lookup_insert_eq|].
    cbn [failed_attempts locked_until]. split; [reflexivity|].
    unfold MAX_FAILED_ATTEMPTS, LOCKOUT_DURATION_MS.
    destruct (Z.leb_spec 5 (failed_attempts r + 1)); split; intros; try lia;
      reflexivity.
  - intros d n w r Hres.
    destruct (checkLockout_cases d n w) as [(msg & Hthrow & _)|(r' & Hok & Hlock & _)];
      congruence.
  - intros d n w. destruct (recordSuccess_run d n w) as [-> ->].
    split; [reflexivity | apply lookup_delete_eq].
  - intros w Hreach. exact (reachable_lockout_ok w Hreach).
Qed.

End StoreFacts.

(** ** The stand-in runtime meets the laws *)

Lemma standin_base64url_roundtrip : base64url_roundtrip (H := Standin.runtime).
Proof. intros b. apply from_hex_toString_hex. Defined.

Lemma standin_gcm_correct : gcm_correct (H := Standin.runtime).
Proof.
  intros key nonce plaintext ct tag. cbn. unfold Standin.seal, Standin.open.
  intros [= <- <-]. rewrite bool_decide_eq_true_2; reflexivity.
Defined.




(** ** Concrete runs *)

Lemma first_issue_stores :
  files Standin.first_issue.2 !! getSessionPath "/w" "default"
  = Some (SessionJson Standin.first_record).
Proof. vm_compute. reflexivity. Qed.

Lemma expired_second_session_stored :
  files (Standin.later 5000 Standin.second_issue.2)
    !! getSessionPath "/w" "default"
  = Some (SessionJson Standin.second_record).
Proof. vm_compute. reflexivity. Qed.

Lemma bad_is_malformed : malformed (RT := Standin.runtime) "bad".
Proof. left. vm_compute. reflexivity. Qed.

Lemma validateSession_accepts_tampered_record_witness :
  (validateSession (RT := Standin.runtime) "/w" "default" Standin.FIRST_TOKEN
     Standin.tampered_world).1
  = Ok Standin.MNEMONIC.
Proof.
  destruct (validateSession_accepts_tampered_record (RT := Standin.runtime)
              "/w" "default" Standin.MNEMONIC (Some 3600) (Standin.world 1)
              standin_base64url_roundtrip standin_gcm_correct)
    as (token & rec & Htoken & Hrec & Hany).
  vm_compute in Htoken. injection Htoken as <-.
  vm_compute in Hrec. injection Hrec as <-.
  apply (Hany Standin.tampered Standin.tampered_world);
    try (vm_compute; reflexivity).
  vm_compute. discriminate.
Defined.

Lemma createSession_persists_token_secret_witness :
  exists token tokenId tokenSecret rec,
    Standin.first_issue.1 = Ok token /\
    files Standin.first_issue.2 !! getTokenFilePath "/w" "default"
      = Some (Text token) /\
    decodeToken (RT := Standin.runtime) token = Ok (tokenId, tokenSecret) /\
    length tokenSecret = TOKEN_SECRET_SIZE /\
    files Standin.first_issue.2 !! getSessionPath "/w" "default"
      = Some (SessionJson rec) /\
    hmac rec = toString_hex (hmacSha256 (RT := Standin.runtime) tokenSecret tokenId).
Proof.
  exact (createSession_persists_token_secret (RT := Standin.runtime)
           "/w" "default" Standin.MNEMONIC (Some 3600) (Standin.world 1)
           standin_base64url_roundtrip).
Defined.

(** C3, the claim as stated fails: the token [bad] has the wrong prefix,
    and in an empty wallet directory [validateSession] rejects it as
    session-not-found, not as session-invalid. *)
Lemma malformed_token_without_session :
  malformed (RT := Standin.runtime) "bad" /\
  failure (validateSession (RT := Standin.runtime) "/w" "default" "bad"
             (Standin.world 1)).1
  = Some ERR_SESSION_NOT_FOUND /\
  failure (validateSession (RT := Standin.runtime) "/w" "default" "bad"
             (Standin.world 1)).1
  <> Some ERR_SESSION_INVALID.
Proof.
  split; [left; vm_compute; reflexivity|].
  split; [vm_compute; reflexivity | vm_compute; discriminate].
Qed.

Lemma validateSession_malformed_token_witness :
  failure (validateSession (RT := Standin.runtime) "/w" "default" "bad"
             (Standin.world 1)).1
  = Some ERR_SESSION_NOT_FOUND /\
  failure (validateSession (RT := Standin.runtime) "/w" "default" "bad"
             (Standin.later 5000 Standin.second_issue.2)).1
  = Some ERR_SESSION_EXPIRED /\
  failure (validateSession (RT := Standin.runtime) "/w" "default" "bad"
             Standin.first_issue.2).1
  = Some ERR_SESSION_INVALID.
Proof.
  split; [|split].
  - refine (proj1 (proj1 (validateSession_malformed_token
                            (RT := Standin.runtime) "/w" "default" "bad"
                            (Standin.world 1) bad_is_malformed) _)).
    vm_compute. reflexivity.
  - refine (proj1 (proj1 (proj2 (validateSession_malformed_token
                                   (RT := Standin.runtime) "/w" "default" "bad"
                                   (Standin.later 5000 Standin.second_issue.2)
                                   bad_is_malformed))
                     Standin.second_record expired_second_session_stored _)).
    vm_compute. reflexivity.
  - refine (proj1 (proj2 (proj2 (validateSession_malformed_token
                                   (RT := Standin.runtime) "/w" "default" "bad"
                                   Standin.first_issue.2 bad_is_malformed))
                     Standin.first_record first_issue_stores _)).
    vm_compute. discriminate.
Defined.

(** C10, the claim as stated fails: the first token, superseded by a
    second session of one second for the same wallet, is rejected five
    seconds later as session-expired, not as session-invalid, although its
    token-id is not the stored one. *)
Lemma superseded_token_after_expiry :
  Standin.first_issue.1 = Ok Standin.FIRST_TOKEN /\
  decodeToken (RT := Standin.runtime) Standin.FIRST_TOKEN
  = Ok (map (entropy (Standin.world 1)) (seq 0 16),
        map (fun i => entropy (Standin.world 1) (16 + i)%nat) (seq 0 32)) /\
  files (Standin.later 5000 Standin.second_issue.2)
    !! getSessionPath "/w" "default"
  = Some (SessionJson Standin.second_record) /\
  toString_hex (map (entropy (Standin.world 1)) (seq 0 16))
  <> token_id Standin.second_record /\
  failure (validateSession (RT := Standin.runtime) "/w" "default"
             Standin.FIRST_TOKEN (Standin.later 5000 Standin.second_issue.2)).1
  = Some ERR_SESSION_EXPIRED /\
  failure (validateSession (RT := Standin.runtime) "/w" "default"
             Standin.FIRST_TOKEN (Standin.later 5000 Standin.second_issue.2)).1
  <> Some ERR_SESSION_INVALID.
Proof.
  repeat split; try (vm_compute; reflexivity); vm_compute; discriminate.
Qed.

Lemma createSession_replaces_session_witness :
  failure (validateSession (RT := Standin.runtime) "/w" "default"
             Standin.FIRST_TOKEN Standin.second_issue.2).1
  = Some ERR_SESSION_INVALID /\
  files (validateSession (RT := Standin.runtime) "/w" "default"
           Standin.FIRST_TOKEN Standin.second_issue.2).2
  = files Standin.second_issue.2.
Proof.
  destruct (createSession_replaces_session (RT := Standin.runtime)
              "/w" "default" Standin.MNEMONIC Standin.MNEMONIC
              (Some 3600) (Some 1) (Standin.world 1) Standin.first_issue.2
              standin_base64url_roundtrip)
    as (tokenA & idA & secretA & recB & HtokenA & Hdecode & HrecB & Hany).
  vm_compute in HtokenA. injection HtokenA as <-.
  vm_compute in Hdecode. injection Hdecode as <- <-.
  vm_compute in HrecB. injection HrecB as <-.
  refine (proj1 (Hany Standin.second_issue.2 _ _) _).
  - vm_compute. reflexivity.
  - vm_compute. discriminate.
  - vm_compute. discriminate.
Defined.

Lemma expired_session_is_deleted_witness :
  (failure (validateSession (RT := Standin.runtime) "/w" "default"
              Standin.FIRST_TOKEN (Standin.later 5000 Standin.second_issue.2)).1
   = Some ERR_SESSION_EXPIRED /\
   files (validateSession (RT := Standin.runtime) "/w" "default"
            Standin.FIRST_TOKEN (Standin.later 5000 Standin.second_issue.2)).2
     !! getSessionPath "/w" "default" = None) /\
  (files (perform (RT := Standin.runtime) (Validate "/w" "default" "bad")
            Standin.first_issue.2).2
   = files Standin.first_issue.2 \/
   exists d n token r,
     Validate "/w" "default" "bad" = Validate d n token /\
     files Standin.first_issue.2 !! getSessionPath d n = Some (SessionJson r) /\
     expires_at r < clock Standin.first_issue.2 0 /\
     exn_code (WalletError ERR_SESSION_INVALID "Invalid token format")
     = ERR_SESSION_EXPIRED).
Proof.
  split.
  - refine (proj1 (expired_session_is_deleted (RT := Standin.runtime))
              "/w" "default" Standin.FIRST_TOKEN
              (Standin.later 5000 Standin.second_issue.2)
              Standin.second_record expired_second_session_stored _).
    vm_compute. reflexivity.
  - refine (proj2 (expired_session_is_deleted (RT := Standin.runtime))
              (Validate "/w" "default" "bad") Standin.first_issue.2
              (WalletError ERR_SESSION_INVALID "Invalid token format") _).
    vm_compute. reflexivity.
Defined.

Lemma with_wallet_created :
  (createKeystore (RT := Standin.runtime) "/w" "default" Standin.MNEMONIC
     Standin.PASSWORD (Standin.world 20000)).1
  = Ok Standin.KEYSTORE.
Proof. vm_compute. reflexivity. Qed.

Lemma with_wallet_stores :
  files Standin.with_wallet !! getKeystorePath "/w" "default"
  = Some (KeystoreJson Standin.KEYSTORE).
Proof. vm_compute. reflexivity. Qed.

Lemma keystore_roundtrip_witness :
  (exists ks,
     (createKeystore (RT := Standin.runtime) "/w" "default" Standin.MNEMONIC
        Standin.PASSWORD (Standin.world 20000)).1 = Ok ks) /\
  decryptKeystore (RT := Standin.runtime) "/w" "default" Standin.PASSWORD
    Standin.with_wallet
  = (Ok Standin.MNEMONIC, Standin.with_wallet).
Proof.
  destruct (keystore_roundtrip (RT := Standin.runtime) "/w" "default"
              Standin.MNEMONIC Standin.PASSWORD (Standin.world 20000)
              standin_gcm_correct) as [Hcreates Hround].
  split.
  - apply Hcreates; [vm_compute; reflexivity | eexists; vm_compute; reflexivity].
  - exact (proj2 (Hround Standin.KEYSTORE with_wallet_created)
             Standin.with_wallet with_wallet_stores).
Defined.



Lemma checkLockout_backoff_witness :
  failure (checkLockout "/w" "default" (Standin.backing_off 1767225603999)).1
  = Some ERR_WALLET_LOCKED /\
  (checkLockout "/w" "default" (Standin.backing_off 1767225604000)).1
  = Ok Standin.backoff_record.
Proof.
  split.
  - refine (proj1 (proj1 (checkLockout_backoff "/w" "default"
                            (Standin.backing_off 1767225603999)
                            Standin.backoff_record 1767225600000 _ _ _ _) _));
      try (vm_compute; reflexivity).
    + vm_compute. split; [discriminate | reflexivity].
  - refine (proj1 (proj2 (checkLockout_backoff "/w" "default"
                            (Standin.backing_off 1767225604000)
                            Standin.backoff_record 1767225600000 _ _ _ _) _));
      try (vm_compute; reflexivity).
    + vm_compute. split; [discriminate | reflexivity].
    + vm_compute. discriminate.
Defined.

Lemma five_failures_reachable :
  reachable (RT := Standin.runtime) (Standin.failed_unlocks 5 Standin.with_wallet).
Proof.
  cbn [Standin.failed_unlocks]. do 5 apply reachable_unlock.
  unfold Standin.with_wallet. apply reachable_create, reachable_empty.
  reflexivity.
Qed.

Lemma lockout_state_machine_witness :
  locked_until Standin.backoff_record = None /\
  5 <= failed_attempts
         {| failed_attempts := 5;
            last_failed_at := Some 1767225780000;
            locked_until := Some 1767226700000 |}.
Proof.
  destruct (lockout_state_machine (RT := Standin.runtime))
    as (_ & Hcheck & _ & Hreach).
  split.
  - refine (Hcheck "/w" "default" (Standin.backing_off 1767225604000)
              Standin.backoff_record _).
    vm_compute. reflexivity.
  - refine (Hreach (Standin.failed_unlocks 5 Standin.with_wallet)
              five_failures_reachable (getLockoutPath "/w" "default") _ _ _).
    + vm_compute. reflexivity.
    + vm_compute. eexists. reflexivity.
Defined.

(** * Further properties of the core *)

Lemma append_assoc (a b c : string) : (a +:+ b) +:+ c = a +:+ (b +:+ c).
Proof.
  induction a as [|x a IH]; [reflexivity|].
  change (String x ((a +:+ b) +:+ c) = String x (a +:+ (b +:+ c))).
  now rewrite IH.
Qed.

(** Two paths under one wallet directory that differ from the first
    directory name on are different. *)
Ltac paths_differ :=
  let H := fresh in
  unfold getKeystorePath, getSessionPath, getTokenFilePath, getLockoutPath,
    getKeystoreDir, getSessionDir, getLockoutDir, join;
  intros H; rewrite !append_assoc in H; apply append_cancel_l in H;
  vm_compute in H; congruence.




Lemma keystore_path_not_session_path (d n n' : string) :
  getKeystorePath d n <> getSessionPath d n'.
Proof. paths_differ. Qed.

Lemma keystore_path_not_token_path (d n n' : string) :
  getKeystorePath d n <> getTokenFilePath d n'.
Proof. paths_differ. Qed.

Section SessionMore.
Context `{RT : Runtime}.

(** A record that carries the token-id, the tag, the salt and the cipher
    parameters of an issued session validates with the issued token. *)
Lemma validateSession_issued (d n m : string)
    (id secret slt nonce ct tag : bytes) (rec : SessionFile) (w' : World) :
  base64url_roundtrip -> gcm_correct ->
  length id = TOKEN_ID_SIZE -> length secret = TOKEN_SECRET_SIZE ->
  gcm_encrypt (deriveHkdfKey secret slt HKDF_INFO 32) nonce
    (list_byte_of_string m) = (ct, tag) ->
  token_id rec = toString_hex id ->
  hmac rec = toString_hex (hmacSha256 secret id) ->
  hkdf_salt rec = toString_hex slt ->
  cipher rec = {| cipher_algorithm := "aes-256-gcm";
                  iv := toString_hex nonce;
                  auth_tag := toString_hex tag;
                  ciphertext := toString_hex ct |} ->
  files w' !! getSessionPath d n = Some (SessionJson rec) ->
  clock w' 0 <= expires_at rec ->
  (validateSession d n (encodeToken id secret) w').1 = Ok m /\
  files (validateSession d n (encodeToken id secret) w').2 = files w'.
Proof.
  intros Hb Hgcm Hid Hsec Hseal Htid Hmac Hsalt Hcipher Hfile Hlive.
  destruct (validateSession_live d n (encodeToken id secret) w' _ Hfile Hlive)
    as [-> ->].
  split; [|reflexivity].
  rewrite decodeToken_encodeToken by assumption.
  rewrite Htid, Hmac, Hsalt, Hcipher. cbn [iv auth_tag ciphertext].
  rewrite !String.eqb_refl. cbn [negb].
  rewrite !from_hex_toString_hex, (Hgcm _ _ _ _ _ Hseal).
  rewrite string_of_list_byte_of_string. reflexivity.
Qed.

(** X1. Session round trip: the token that [createSession] returns
    validates against the record it stored, in every world that holds that
    record and reads a clock not after its expiry, and gives the secret
    back without changing the store. *)
Theorem session_roundtrip (d n m : string) (t : option Z) (w : World) :
  base64url_roundtrip -> gcm_correct ->
  exists token rec,
    (createSession d n m t w).1 = Ok token /\
    files (createSession d n m t w).2 !! getSessionPath d n
      = Some (SessionJson rec) /\
    forall w' : World,
      files w' !! getSessionPath d n = Some (SessionJson rec) ->
      clock w' 0 <= expires_at rec ->
      (validateSession d n token w').1 = Ok m /\
      files (validateSession d n token w').2 = files w'.
Proof.
  intros Hb Hgcm.
  destruct (createSession_run d n m t w)
    as (id & secret & slt & nonce & ct & tag & Hid & Hsec & Hseal & Hres & Hfiles).
  eexists _, _. split; [exact Hres|]. rewrite Hfiles.
  rewrite lookup_insert_ne by (apply not_eq_sym, session_path_not_token_path).
  rewrite lookup_insert_eq. split; [reflexivity|].
  intros w' Hfile Hlive.
  refine (validateSession_issued d n m id secret slt nonce ct tag _ w'
            Hb Hgcm Hid Hsec Hseal _ _ _ _ Hfile Hlive); reflexivity.
Qed.

(** X2. Revocation: [revokeSession] never fails, removes the session file
    and the token file of the wallet and nothing else, and leaves the store
    as it is when neither was there; afterwards [validateSession] fails
    with session-not-found whatever the token. *)
Theorem revokeSession_removes_session (d n : string) (w : World) :
  (revokeSession d n w).1 = Ok tt /\
  files (revokeSession d n w).2 !! getSessionPath d n = None /\
  files (revokeSession d n w).2 !! getTokenFilePath d n = None /\
  (forall p, p <> getSessionPath d n -> p <> getTokenFilePath d n ->
     files (revokeSession d n w).2 !! p = files w !! p) /\
  (files w !! getSessionPath d n = None ->
   files w !! getTokenFilePath d n = None ->
   files (revokeSession d n w).2 = files w) /\
  (forall token,
     failure (validateSession d n token (revokeSession d n w).2).1
     = Some ERR_SESSION_NOT_FOUND).
Proof.
  destruct (revokeSession_run d n w) as [Hres Hfiles].
  assert (Hgone : files (revokeSession d n w).2 !! getSessionPath d n = None).
  { rewrite Hfiles.
    rewrite lookup_delete_ne
      by (apply not_eq_sym, session_path_not_token_path).
    apply lookup_delete_eq. }
  split; [exact Hres|]. split; [exact Hgone|].
  split; [rewrite Hfiles; apply lookup_delete_eq|].
  split; [|split].
  - intros p Hs Ht. rewrite Hfiles.
    rewrite !lookup_delete_ne by (apply not_eq_sym; assumption). reflexivity.
  - intros Hs Ht. rewrite Hfiles, (delete_id _ _ Hs). apply delete_id, Ht.
  - intros token. rewrite (validateSession_absent _ _ _ _ Hgone). reflexivity.
Qed.

(** X3. What [decodeToken] accepts: a token it decodes carries the prefix,
    and the two halves it returns are 16 and 32 bytes long and are the
    decoded payload split at byte 16. *)
Theorem decodeToken_shape (token : string) (tokenId tokenSecret : bytes) :
  decodeToken token = Ok (tokenId, tokenSecret) ->
  startsWith token TOKEN_PREFIX = true /\
  length tokenId = 16%nat /\ length tokenSecret = 32%nat /\
  (tokenId ++ tokenSecret)%list
  = from_base64url (slice (String.length TOKEN_PREFIX) token).
Proof.
  unfold decodeToken. destruct (startsWith token TOKEN_PREFIX); [|discriminate].
  cbn [negb].
  generalize (from_base64url (slice (String.length TOKEN_PREFIX) token)).
  intros combined.
  destruct (Nat.eqb_spec (length combined) (TOKEN_ID_SIZE + TOKEN_SECRET_SIZE))
    as [Hlen|]; [|discriminate].
  cbn [negb]. intros [= <- <-]. split; [reflexivity|].
  rewrite length_take, length_drop, Hlen, take_drop.
  unfold TOKEN_ID_SIZE, TOKEN_SECRET_SIZE. repeat split; lia.
Qed.

(** X4. What [validateSession] requires: it returns a secret only when a
    session record is stored for the wallet, the clock does not read after
    its expiry, the token decodes, the hex of its token-id is the stored
    one and the hex of the HMAC of the token-id under the token-secret is
    the stored tag; and then the store is unchanged. *)
Theorem validateSession_sound (d n token m : string) (w : World) :
  (validateSession d n token w).1 = Ok m ->
  exists rec tokenId tokenSecret,
    files w !! getSessionPath d n = Some (SessionJson rec) /\
    clock w 0 <= expires_at rec /\
    decodeToken token = Ok (tokenId, tokenSecret) /\
    toString_hex tokenId = token_id rec /\
    toString_hex (hmacSha256 tokenSecret tokenId) = hmac rec /\
    files (validateSession d n token w).2 = files w.
Proof.
  intros Hok.
  destruct (files w !! getSessionPath d n) as [f|] eqn:Hfile.
  2:{ rewrite (validateSession_absent _ _ _ _ Hfile) in Hok. discriminate. }
  destruct f as [ks|rec|lr|txt].
  2:{ destruct (Z.lt_ge_cases (expires_at rec) (clock w 0)) as [Hexp|Hlive].
      { destruct (validateSession_expired d n token w rec Hfile Hexp) as [H _].
        rewrite H in Hok. discriminate. }
      assert (Hlive' : clock w 0 <= expires_at rec) by lia.
      destruct (validateSession_live d n token w rec Hfile Hlive') as [Hsame H].
      rewrite H in Hok.
      destruct (decodeToken token) as [[id sec]|e]; [|discriminate].
      destruct (String.eqb_spec (toString_hex id) (token_id rec)) as [Hid|];
        [|discriminate].
      destruct (String.eqb_spec (toString_hex (hmacSha256 sec id)) (hmac rec))
        as [Hmac|]; [|discriminate].
      exists rec, id, sec. repeat split; assumption. }
  all: revert Hok; unfold validateSession, readSessionFile; io;
    rewrite Hfile; io; rewrite Hfile; discriminate.
Qed.

End SessionMore.

Section KeystoreMore.
Context `{RT : Runtime}.

(** A record that [createKeystore] wrote under a password opens under that
    password and gives the secret. *)
Lemma created_keystore_opens (d n secret P : string) (w w2 : World)
    (ks : KeystoreFile) :
  gcm_correct ->
  (createKeystore d n secret P w).1 = Ok ks ->
  files w2 !! getKeystorePath d n = Some (KeystoreJson ks) ->
  decryptKeystore d n P w2 = (Ok secret, w2).
Proof.
  intros Hgcm Hcreate Hfile.
  destruct (createKeystore d n secret P w) as [res w1] eqn:Hrun.
  cbn [fst] in Hcreate. subst res.
  destruct (createKeystore_run _ _ _ _ _ _ _ Hrun)
    as (_ & _ & slt & nonce & ct & tag & Hseal & Hkdf & Hcipher).
  rewrite (decryptKeystore_present _ _ _ _ _ Hfile), Hkdf, Hcipher.
  cbn [salt time_cost memory_cost parallelism iv auth_tag ciphertext].
  rewrite !from_hex_toString_hex, (Hgcm _ _ _ _ _ Hseal).
  rewrite string_of_list_byte_of_string. reflexivity.
Qed.


(** X5. Duplicate creation: when a file is stored at the keystore path of
    the name, [createKeystore] fails with wallet-already-exists before it
    derives or draws anything, and the world is exactly as it was; so a
    second creation under the name of a wallet just created fails and
    leaves the first record in place. *)
Theorem createKeystore_duplicate (d n secret P : string) (w : World) :
  (forall f, files w !! getKeystorePath d n = Some f ->
     createKeystore d n secret P w
     = (Throw (WalletError ERR_WALLET_EXISTS
                 ("Wallet " +:+ dquote +:+ n +:+ dquote +:+ " already exists")),
        w)) /\
  (forall ks secret' P',
     (createKeystore d n secret P w).1 = Ok ks ->
     failure (createKeystore d n secret' P' (createKeystore d n secret P w).2).1
     = Some ERR_WALLET_EXISTS /\
     files (createKeystore d n secret' P' (createKeystore d n secret P w).2).2
       !! getKeystorePath d n
     = Some (KeystoreJson ks)).
Proof.
  assert (Hdup : forall s' P' w' f, files w' !! getKeystorePath d n = Some f ->
            createKeystore d n s' P' w'
            = (Throw (WalletError ERR_WALLET_EXISTS
                        ("Wallet " +:+ dquote +:+ n +:+ dquote
                         +:+ " already exists")), w')).
  { intros s' P' w' f Hfile. unfold createKeystore. io. rewrite Hfile.
    reflexivity. }
  split; [intros f; apply Hdup|].
  intros ks secret' P' Hcreate.
  destruct (createKeystore d n secret P w) as [res w1] eqn:Hrun.
  cbn [fst snd] in *. subst res.
  apply createKeystore_run in Hrun as (_ & Hfiles & _).
  assert (Hfile : files w1 !! getKeystorePath d n = Some (KeystoreJson ks))
    by (rewrite Hfiles; apply lookup_insert_eq).
  rewrite (Hdup secret' P' w1 _ Hfile). split; [reflexivity | exact Hfile].
Qed.

(** X6. What [createKeystore] stores: on success the store gains exactly
    the returned record at the keystore path of the name; the record has
    version 1, the given name, the default Argon2id costs 6, 65536 and 4,
    and the two addresses derived from the secret at index 0; and
    [readKeystore] then returns that record and [keystoreExists] is true. *)
Theorem createKeystore_stores (d n secret P : string) (w : World)
    (ks : KeystoreFile) :
  (createKeystore d n secret P w).1 = Ok ks ->
  files (createKeystore d n secret P w).2
  = <[getKeystorePath d n := KeystoreJson ks]> (files w) /\
  ks_version ks = 1 /\ name ks = n /\
  time_cost (kdf ks) = 6 /\ memory_cost (kdf ks) = 65536 /\
  parallelism (kdf ks) = 4 /\
  (exists a, deriveAddresses secret 0 = Ok a /\
             addresses_ethereum ks = [a.1] /\ addresses_solana ks = [a.2]) /\
  (readKeystore d n (createKeystore d n secret P w).2).1 = Ok ks /\
  (keystoreExists d n (createKeystore d n secret P w).2).1 = Ok true.
Proof.
  intros Hcreate.
  destruct (createKeystore d n secret P w) as [res w1] eqn:Hrun.
  cbn [fst snd] in *. subst res.
  pose proof (createKeystore_run _ _ _ _ _ _ _ Hrun)
    as (_ & Hfiles & slt & nonce & ct & tag & _ & Hkdf & _).
  assert (Hfile : files w1 !! getKeystorePath d n = Some (KeystoreJson ks))
    by (rewrite Hfiles; apply lookup_insert_eq).
  split; [exact Hfiles|]. rewrite Hkdf. cbn [time_cost memory_cost parallelism].
  assert (Hfields : ks_version ks = 1 /\ name ks = n /\
            exists a, deriveAddresses secret 0 = Ok a /\
              addresses_ethereum ks = [a.1] /\ addresses_solana ks = [a.2]).
  { revert Hrun.
    unfold createKeystore, encryptMnemonic, deriveKeyFromPassword, encryptAesGcm.
    io. destruct (files w !! getKeystorePath d n); [discriminate|]. io.
    destruct (gcm_encrypt _ _ _) as [ct' tag']. io.
    destruct (deriveAddresses secret 0) as [a|e]; [|discriminate]. io.
    intros [= <- _]. cbn. split; [reflexivity|]. split; [reflexivity|].
    exists a. split; [reflexivity|]. split; reflexivity. }
  destruct Hfields as (Hv & Hn & Ha).
  split; [exact Hv|]. split; [exact Hn|]. do 3 (split; [reflexivity|]).
  split; [exact Ha|]. split.
  - unfold readKeystore. io. rewrite Hfile. io. rewrite Hfile. reflexivity.
  - unfold keystoreExists. io. rewrite Hfile. reflexivity.
Qed.

End KeystoreMore.

Section LockoutMore.
Context `{RT : Runtime}.

(** A stored record with a lock still running: [checkLockout] throws the
    locked-out outcome after one clock reading, whatever the counter and
    the time of the last failure. *)
Lemma checkLockout_locked_run (d n : string) (w : World) (r : LockoutRecord)
    (lu : Z) :
  files w !! getLockoutPath d n = Some (LockoutJson r) ->
  locked_until r = Some lu -> clock w 0 < lu ->
  failure (checkLockout d n w).1 = Some ERR_WALLET_LOCKED /\
  files (checkLockout d n w).2 = files w.
Proof.
  intros Hfile Hlock Hnow. apply Z.ltb_lt in Hnow.
  destruct (readLockoutRecord_run d n w) as (r' & Hread & _ & Hsame).
  rewrite (Hsame r Hfile) in Hread.
  unfold checkLockout, bind. rewrite Hread, Hlock. io. rewrite Hnow.
  split; reflexivity.
Qed.

(** No lockout record stored: [checkLockout] returns the empty record and
    leaves the world alone. *)
Lemma checkLockout_unrecorded_run (d n : string) (w : World) :
  (forall r, files w !! getLockoutPath d n <> Some (LockoutJson r)) ->
  checkLockout d n w = (Ok EMPTY_LOCKOUT, w).
Proof.
  intros Hnone.
  destruct (readLockoutRecord_run d n w) as (r & Hread & [Hfile| ->] & _);
    [destruct (Hnone r Hfile)|].
  unfold checkLockout, bind. rewrite Hread. reflexivity.
Qed.

(** X7. Full lock: with a stored record whose lock timestamp is [lu],
    [checkLockout] fails with the locked-out outcome and leaves the store
    alone while the clock reads before [lu]; from [lu] on it succeeds,
    returns the empty record and persists it in place of the stored one, so
    the counter restarts at zero. *)
Theorem checkLockout_full_lock (d n : string) (w : World) (r : LockoutRecord)
    (lu : Z) :
  files w !! getLockoutPath d n = Some (LockoutJson r) ->
  locked_until r = Some lu ->
  (clock w 0 < lu ->
     failure (checkLockout d n w).1 = Some ERR_WALLET_LOCKED /\
     files (checkLockout d n w).2 = files w) /\
  (lu <= clock w 0 ->
     (checkLockout d n w).1 = Ok EMPTY_LOCKOUT /\
     files (checkLockout d n w).2
     = <[getLockoutPath d n := LockoutJson EMPTY_LOCKOUT]> (files w)).
Proof.
  intros Hfile Hlock. split.
  - intros Hnow. exact (checkLockout_locked_run d n w r lu Hfile Hlock Hnow).
  - intros Hnow. apply Z.ltb_ge in Hnow.
    destruct (readLockoutRecord_run d n w) as (r' & Hread & _ & Hsame).
    rewrite (Hsame r Hfile) in Hread.
    unfold checkLockout, writeLockoutRecord, bind. rewrite Hread, Hlock. io.
    rewrite Hnow. split; reflexivity.
Qed.

(** X8. No record, no delay: when the lockout path holds no lockout
    record (no file, or a file that is not one), [checkLockout] returns the
    empty record without reading the clock or writing anything. *)
Theorem checkLockout_unrecorded (d n : string) (w : World) :
  (forall r, files w !! getLockoutPath d n <> Some (LockoutJson r)) ->
  checkLockout d n w = (Ok EMPTY_LOCKOUT, w).
Proof.
  intros Hnone.
  destruct (readLockoutRecord_run d n w) as (r & Hread & [Hfile| ->] & _);
    [destruct (Hnone r Hfile)|].
  unfold checkLockout, bind. rewrite Hread. reflexivity.
Qed.

(** X9. Lockout threshold: a failure recorded on a record whose counter is
    4 or more sets a lock, and every later [checkLockout] that finds the
    persisted record and reads the clock less than 15 minutes after the
    second clock reading of [recordFailedAttempt] fails with the locked-out
    outcome. *)
Theorem fifth_failure_locks (d n : string) (r : LockoutRecord) (w w' : World) :
  4 <= failed_attempts r ->
  files w' !! getLockoutPath d n
  = files (recordFailedAttempt d n r w).2 !! getLockoutPath d n ->
  clock w' 0 < clock w 1 + 15 * 60 * 1000 ->
  failure (checkLockout d n w').1 = Some ERR_WALLET_LOCKED /\
  files (checkLockout d n w').2 = files w'.
Proof.
  intros Hcount Hfile Hnow.
  destruct (recordFailedAttempt_run d n r w) as [_ Hfiles].
  rewrite Hfiles, lookup_insert_eq in Hfile.
  assert (Hmax : (MAX_FAILED_ATTEMPTS <=? failed_attempts r + 1) = true)
    by (apply Z.leb_le; unfold MAX_FAILED_ATTEMPTS; lia).
  rewrite Hmax in Hfile.
  exact (checkLockout_locked_run d n w' _ _ Hfile eq_refl Hnow).
Qed.

(** X10. Success resets: after [recordSuccess] the lockout path holds
    nothing, every other file is as before, and the next [checkLockout]
    returns the empty record at once. *)
Theorem recordSuccess_resets (d n : string) (w : World) :
  files (recordSuccess d n w).2 = delete (getLockoutPath d n) (files w) /\
  checkLockout d n (recordSuccess d n w).2
  = (Ok EMPTY_LOCKOUT, (recordSuccess d n w).2).
Proof.
  destruct (recordSuccess_run d n w) as [_ Hfiles]. split; [exact Hfiles|].
  apply checkLockout_unrecorded_run. intros r. rewrite Hfiles, lookup_delete_eq.
  discriminate.
Qed.

(** X11. Backoff schedule: after a failure recorded on a record without a
    lock whose counter [k] is between 0 and 3, a [checkLockout] that finds
    the persisted record fails with the locked-out outcome exactly when the
    clock reads less than [1000 * 2^k] milliseconds after the time of the
    failure, and otherwise returns the record with counter [k + 1]. *)
Theorem backoff_after_failure (d n : string) (r : LockoutRecord) (w w' : World) :
  0 <= failed_attempts r < 4 ->
  locked_until r = None ->
  files w' !! getLockoutPath d n
  = files (recordFailedAttempt d n r w).2 !! getLockoutPath d n ->
  (clock w' 0 < clock w 0 + 1000 * 2 ^ failed_attempts r ->
     failure (checkLockout d n w').1 = Some ERR_WALLET_LOCKED /\
     files (checkLockout d n w').2 = files w') /\
  (clock w 0 + 1000 * 2 ^ failed_attempts r <= clock w' 0 ->
     (checkLockout d n w').1
     = Ok {| failed_attempts := failed_attempts r + 1;
             last_failed_at := Some (clock w 0);
             locked_until := None |} /\
     files (checkLockout d n w').2 = files w').
Proof.
  intros Hcount Hlock Hfile.
  destruct (recordFailedAttempt_run d n r w) as [_ Hfiles].
  rewrite Hfiles, lookup_insert_eq in Hfile.
  assert (Hmax : (MAX_FAILED_ATTEMPTS <=? failed_attempts r + 1) = false)
    by (apply Z.leb_gt; unfold MAX_FAILED_ATTEMPTS; lia).
  rewrite Hmax, Hlock in Hfile.
  destruct (readLockoutRecord_run d n w') as (r' & Hread & _ & Hsame).
  rewrite (Hsame _ Hfile) in Hread. clear r' Hsame.
  assert (Hpos : (0 <? failed_attempts r + 1) = true) by (apply Z.ltb_lt; lia).
  unfold checkLockout, bind. rewrite Hread. io.
  cbn [locked_until failed_attempts last_failed_at]. io.
  rewrite Hpos. io. unfold BASE_DELAY_MS.
  replace (failed_attempts r + 1 - 1) with (failed_attempts r) by lia.
  split; intros Hnow.
  - apply Z.ltb_lt in Hnow. rewrite Hnow. split; reflexivity.
  - apply Z.ltb_ge in Hnow. rewrite Hnow. split; reflexivity.
Qed.

End LockoutMore.

(** How a sequence runs once the outcome of its first step is known. *)
Lemma bind_returns {A B} (m : M A) (k : A -> M B) (w : World) (a : A) :
  (m w).1 = Ok a -> bind m k w = k a (m w).2.
Proof. unfold bind. destruct (m w) as [[a'|e] w']; [intros [= ->]|]; easy. Qed.

Lemma bind_throws {A B} (m : M A) (k : A -> M B) (w : World) (e : Exn) :
  (m w).1 = Throw e -> bind m k w = (Throw e, (m w).2).
Proof. unfold bind. destruct (m w) as [[a'|e'] w']; [|intros [= ->]]; easy. Qed.

Section CommandsMore.
Context `{RT : Runtime}.


(** [checkLockout] fails with the locked-out outcome only. *)
Lemma checkLockout_throws (d n : string) (w : World) (e : Exn) :
  (checkLockout d n w).1 = Throw e -> exn_code e = ERR_WALLET_LOCKED.
Proof.
  intros H.
  destruct (checkLockout_cases d n w) as [(msg & H' & _)|(r & H' & _)];
    rewrite H' in H; [injection H as <-; reflexivity | discriminate].
Qed.

(** X12. Locked means locked: while a stored lock is running, [unlock] and
    a confirmed [export] fail with the locked-out outcome for every
    password, the right one included, and change nothing in the store. *)
Theorem commands_fail_while_locked (d n p : string) (t : Z) (w : World)
    (r : LockoutRecord) (lu : Z) :
  files w !! getLockoutPath d n = Some (LockoutJson r) ->
  locked_until r = Some lu -> clock w 0 < lu ->
  p <> EmptyString -> 0 < t ->
  (failure (unlock d n p (Some t) w).1 = Some ERR_WALLET_LOCKED /\
   files (unlock d n p (Some t) w).2 = files w) /\
  (failure (exportMnemonic d n p true w).1 = Some ERR_WALLET_LOCKED /\
   files (exportMnemonic d n p true w).2 = files w).
Proof.
  intros Hfile Hlock Hnow Hp Ht.
  apply String.eqb_neq in Hp. apply Z.leb_gt in Ht.
  destruct (checkLockout_locked_run d n w r lu Hfile Hlock Hnow) as [Hres Hsame].
  destruct (checkLockout d n w).1 as [r0|e] eqn:Hcheck; [discriminate|].
  unfold unlock, exportMnemonic. rewrite Hp, Ht. cbn [negb].
  rewrite !(bind_throws _ _ _ _ Hcheck). cbn [fst snd].
  repeat split; assumption.
Qed.




End CommandsMore.

(** ** Concrete runs, continued *)

Lemma first_issue_token : Standin.first_issue.1 = Ok Standin.FIRST_TOKEN.
Proof. vm_compute. reflexivity. Qed.

Lemma session_roundtrip_witness :
  (validateSession (RT := Standin.runtime) "/w" "default" Standin.FIRST_TOKEN
     Standin.first_issue.2).1
  = Ok Standin.MNEMONIC.
Proof.
  destruct (session_roundtrip (RT := Standin.runtime)
              "/w" "default" Standin.MNEMONIC (Some 3600) (Standin.world 1)
              standin_base64url_roundtrip standin_gcm_correct)
    as (token & rec & Htoken & Hrec & Hany).
  vm_compute in Htoken. injection Htoken as <-.
  vm_compute in Hrec. injection Hrec as <-.
  refine (proj1 (Hany Standin.first_issue.2 first_issue_stores _)).
  vm_compute. discriminate.
Defined.

Lemma revokeSession_removes_session_witness :
  files (revokeSession "/w" "default" (Standin.world 1)).2
  = files (Standin.world 1).
Proof.
  refine (proj1 (proj2 (proj2 (proj2 (proj2
            (revokeSession_removes_session "/w" "default" (Standin.world 1))))))
            _ _);
    vm_compute; reflexivity.
Defined.

Lemma first_token_decodes :
  decodeToken (RT := Standin.runtime) Standin.FIRST_TOKEN
  = Ok (map (entropy (Standin.world 1)) (seq 0 16),
        map (fun i => entropy (Standin.world 1) (16 + i)%nat) (seq 0 32)).
Proof. vm_compute. reflexivity. Qed.

Lemma decodeToken_shape_witness :
  startsWith Standin.FIRST_TOKEN TOKEN_PREFIX = true /\
  length (map (entropy (Standin.world 1)) (seq 0 16)) = 16%nat /\
  length (map (fun i => entropy (Standin.world 1) (16 + i)%nat) (seq 0 32))
  = 32%nat /\
  (map (entropy (Standin.world 1)) (seq 0 16)
   ++ map (fun i => entropy (Standin.world 1) (16 + i)%nat) (seq 0 32))%list
  = from_base64url (Runtime := Standin.runtime)
      (slice (String.length TOKEN_PREFIX) Standin.FIRST_TOKEN).
Proof.
  exact (decodeToken_shape (RT := Standin.runtime) Standin.FIRST_TOKEN _ _
           first_token_decodes).
Defined.

Lemma first_token_validates :
  (validateSession (RT := Standin.runtime) "/w" "default" Standin.FIRST_TOKEN
     Standin.first_issue.2).1
  = Ok Standin.MNEMONIC.
Proof. vm_compute. reflexivity. Qed.

Lemma validateSession_sound_witness :
  exists rec tokenId tokenSecret,
    files Standin.first_issue.2 !! getSessionPath "/w" "default"
    = Some (SessionJson rec) /\
    clock Standin.first_issue.2 0 <= expires_at rec /\
    decodeToken (RT := Standin.runtime) Standin.FIRST_TOKEN
    = Ok (tokenId, tokenSecret) /\
    toString_hex tokenId = token_id rec /\
    toString_hex (hmacSha256 (RT := Standin.runtime) tokenSecret tokenId)
    = hmac rec /\
    files (validateSession (RT := Standin.runtime) "/w" "default"
             Standin.FIRST_TOKEN Standin.first_issue.2).2
    = files Standin.first_issue.2.
Proof.
  exact (validateSession_sound (RT := Standin.runtime) "/w" "default"
           Standin.FIRST_TOKEN Standin.MNEMONIC Standin.first_issue.2
           first_token_validates).
Defined.

Lemma createKeystore_duplicate_witness :
  failure (createKeystore (RT := Standin.runtime) "/w" "default"
             Standin.MNEMONIC Standin.WRONG_PASSWORD
             (createKeystore (RT := Standin.runtime) "/w" "default"
                Standin.MNEMONIC Standin.PASSWORD (Standin.world 20000)).2).1
  = Some ERR_WALLET_EXISTS /\
  files (createKeystore (RT := Standin.runtime) "/w" "default"
           Standin.MNEMONIC Standin.WRONG_PASSWORD
           (createKeystore (RT := Standin.runtime) "/w" "default"
              Standin.MNEMONIC Standin.PASSWORD (Standin.world 20000)).2).2
    !! getKeystorePath "/w" "default"
  = Some (KeystoreJson Standin.KEYSTORE).
Proof.
  exact (proj2 (createKeystore_duplicate (RT := Standin.runtime) "/w" "default"
                  Standin.MNEMONIC Standin.PASSWORD (Standin.world 20000))
           Standin.KEYSTORE Standin.MNEMONIC Standin.WRONG_PASSWORD
           with_wallet_created).
Defined.

Lemma createKeystore_stores_witness :
  (readKeystore "/w" "default"
     (createKeystore (RT := Standin.runtime) "/w" "default" Standin.MNEMONIC
        Standin.PASSWORD (Standin.world 20000)).2).1
  = Ok Standin.KEYSTORE.
Proof.
  exact (proj1 (proj2 (proj2 (proj2 (proj2 (proj2 (proj2 (proj2
           (createKeystore_stores (RT := Standin.runtime) "/w" "default"
              Standin.MNEMONIC Standin.PASSWORD (Standin.world 20000)
              Standin.KEYSTORE with_wallet_created))))))))).
Defined.

Lemma locked_wallet_record :
  files Standin.locked_wallet !! getLockoutPath "/w" "default"
  = Some (LockoutJson Standin.locked_record).
Proof. vm_compute. reflexivity. Qed.

Lemma locked_wallet_clock :
  clock Standin.locked_wallet 0 < 1767226700000.
Proof. vm_compute. reflexivity. Qed.

Lemma checkLockout_full_lock_witness :
  failure (checkLockout "/w" "default" Standin.locked_wallet).1
  = Some ERR_WALLET_LOCKED /\
  (checkLockout "/w" "default"
     (Standin.later 900000 Standin.locked_wallet)).1
  = Ok EMPTY_LOCKOUT.
Proof.
  split.
  - exact (proj1 (proj1 (checkLockout_full_lock "/w" "default"
                           Standin.locked_wallet Standin.locked_record
                           1767226700000 locked_wallet_record eq_refl)
                    locked_wallet_clock)).
  - refine (proj1 (proj2 (checkLockout_full_lock "/w" "default"
                            (Standin.later 900000 Standin.locked_wallet)
                            Standin.locked_record 1767226700000 _ eq_refl) _)).
    + vm_compute. reflexivity.
    + vm_compute. discriminate.
Defined.

Lemma checkLockout_unrecorded_witness :
  checkLockout "/w" "default" (Standin.world 1)
  = (Ok EMPTY_LOCKOUT, Standin.world 1).
Proof.
  apply (checkLockout_unrecorded "/w" "default" (Standin.world 1)).
  intros r. vm_compute. discriminate.
Defined.

Lemma fifth_failure_locks_witness :
  failure (checkLockout "/w" "default" Standin.after_fifth_failure).1
  = Some ERR_WALLET_LOCKED.
Proof.
  refine (proj1 (fifth_failure_locks "/w" "default" Standin.four_failures
                   (Standin.world 20000) Standin.after_fifth_failure _ _ _)).
  - vm_compute. discriminate.
  - reflexivity.
  - vm_compute. reflexivity.
Defined.

Lemma backoff_after_failure_witness :
  failure (checkLockout "/w" "default" (Standin.after_first_failure 500)).1
  = Some ERR_WALLET_LOCKED /\
  (checkLockout "/w" "default" (Standin.after_first_failure 20000)).1
  = Ok {| failed_attempts := 1;
          last_failed_at := Some 1767225600000;
          locked_until := None |}.
Proof.
  split.
  - refine (proj1 (proj1 (backoff_after_failure "/w" "default" EMPTY_LOCKOUT
                            (Standin.world 500) (Standin.after_first_failure 500)
                            _ eq_refl eq_refl) _)).
    + vm_compute. split; [discriminate | reflexivity].
    + vm_compute. reflexivity.
  - refine (proj1 (proj2 (backoff_after_failure "/w" "default" EMPTY_LOCKOUT
                            (Standin.world 20000)
                            (Standin.after_first_failure 20000)
                            _ eq_refl eq_refl) _)).
    + vm_compute. split; [discriminate | reflexivity].
    + vm_compute. discriminate.
Defined.

Lemma password_not_empty : Standin.PASSWORD <> EmptyString.
Proof. discriminate. Qed.


Lemma commands_fail_while_locked_witness :
  failure (unlock (RT := Standin.runtime) "/w" "default" Standin.PASSWORD
             (Some 3600) Standin.locked_wallet).1
  = Some ERR_WALLET_LOCKED /\
  failure (exportMnemonic (RT := Standin.runtime) "/w" "default"
             Standin.PASSWORD true Standin.locked_wallet).1
  = Some ERR_WALLET_LOCKED.
Proof.
  pose proof (commands_fail_while_locked (RT := Standin.runtime) "/w" "default"
                Standin.PASSWORD 3600 Standin.locked_wallet
                Standin.locked_record 1767226700000 locked_wallet_record
                eq_refl locked_wallet_clock password_not_empty eq_refl)
    as [[Hunlock _] [Hexport _]].
  split; assumption.
Defined.





(** * The token of a command, passwords and wallet creation *)

Lemma list_byte_of_string_app (a b : string) :
  list_byte_of_string (a +:+ b)
  = (list_byte_of_string a ++ list_byte_of_string b)%list.
Proof.
  induction a as [|x a IH]; [reflexivity|].
  change (byte_of_ascii x :: list_byte_of_string (a +:+ b)
          = byte_of_ascii x
            :: (list_byte_of_string a ++ list_byte_of_string b)%list).
  now rewrite IH.
Qed.

(** No white space character starts with a visible byte, and none ends
    with one. *)
Lemma strip_one_visible (x : byte) (r : bytes) :
  visible x = true -> strip_one WHITE_SPACE (x :: r) = None.
Proof. destruct x; intros H; try discriminate H; reflexivity. Qed.

Lemma strip_one_rev_visible (x : byte) (r : bytes) :
  visible x = true -> strip_one (map (@rev byte) WHITE_SPACE) (x :: r) = None.
Proof. destruct x; intros H; try discriminate H; reflexivity. Qed.

(** [trim] leaves a string of visible characters as it is. *)
Lemma trim_visible (s : string) :
  Forall (fun x => visible x = true) (list_byte_of_string s) -> trim s = s.
Proof.
  intros Hall. unfold trim.
  assert (Hstart : trimStart_bytes (list_byte_of_string s) = list_byte_of_string s).
  { unfold trimStart_bytes. destruct Hall as [|x r Hx _]; [reflexivity|].
    cbn [length strip]. now rewrite strip_one_visible. }
  rewrite Hstart. unfold trimEnd_bytes.
  assert (Hend : forall l : bytes, Forall (fun x => visible x = true) l ->
            strip (map (@rev byte) WHITE_SPACE) (length l) l = l).
  { intros l [|x r Hx _]; [reflexivity|].
    cbn [length strip]. now rewrite strip_one_rev_visible. }
  rewrite <- (length_rev (list_byte_of_string s)).
  rewrite (Hend _ (Forall_rev Hall)), rev_involutive.
  apply string_of_list_byte_of_string.
Qed.

Section TokenFacts.
Context `{RT : Runtime}.
Variable JSON_stringify : File -> string.

(** [resolveToken] as a function of its three sources. *)
Lemma resolveToken_run (d n : string) (explicit env : option string) (w : World) :
  (resolveToken JSON_stringify d n explicit env w).2 = w /\
  (resolveToken JSON_stringify d n explicit env w).1
  = match truthy explicit, truthy env, files w !! getTokenFilePath d n with
    | Some t, _, _ => Ok t
    | None, Some t, _ => Ok t
    | None, None, Some f => Ok (trim (fileText JSON_stringify f))
    | None, None, None =>
        Throw (WalletError ERR_NO_TOKEN
                 ("No session token provided. Use --token, WALLET_CLI_TOKEN env, or run "
                  +:+ dquote +:+ "wallet-cli unlock" +:+ dquote +:+ " first."))
    end.
Proof.
  unfold resolveToken.
  destruct (truthy explicit); [split; reflexivity|].
  destruct (truthy env); [split; reflexivity|]. io.
  destruct (files w !! getTokenFilePath d n) eqn:Hfile; io;
    rewrite ?Hfile; split; reflexivity.
Qed.

(** An issued token is its own [trim]. *)
Lemma trim_encodeToken (id secret : bytes) :
  base64url_printable -> trim (encodeToken id secret) = encodeToken id secret.
Proof.
  intros Hprint. apply trim_visible. unfold encodeToken.
  rewrite list_byte_of_string_app. apply Forall_app. split; [|apply Hprint].
  repeat constructor.
Qed.

(** X16. Where the token comes from: [resolveToken] never changes the
    world; a non-empty [--token] wins over the environment and the token
    file, and a non-empty environment variable over the token file; it fails
    exactly when the option and the variable are absent or empty and no
    token file is stored, and then with the no-token outcome. *)
Theorem resolveToken_sources (d n : string) (explicit env : option string)
    (w : World) :
  (resolveToken JSON_stringify d n explicit env w).2 = w /\
  (forall t, truthy explicit = Some t ->
     (resolveToken JSON_stringify d n explicit env w).1 = Ok t) /\
  (forall t, truthy explicit = None -> truthy env = Some t ->
     (resolveToken JSON_stringify d n explicit env w).1 = Ok t) /\
  (failure (resolveToken JSON_stringify d n explicit env w).1 = Some ERR_NO_TOKEN
   <-> truthy explicit = None /\ truthy env = None /\
       files w !! getTokenFilePath d n = None) /\
  (forall e, (resolveToken JSON_stringify d n explicit env w).1 = Throw e ->
     exn_code e = ERR_NO_TOKEN).
Proof.
  destruct (resolveToken_run d n explicit env w) as [Hworld ->].
  split; [exact Hworld|].
  destruct (truthy explicit) as [t1|], (truthy env) as [t2|],
    (files w !! getTokenFilePath d n) as [f|]; cbn [failure exn_code];
    (split; [intros t H; congruence|]);
    (split; [intros t H1 H2; congruence|]);
    (split; [split; [discriminate || (intros _; repeat split; reflexivity)
                    |intros (H1 & H2 & H3); congruence]|]);
    intros e H; try discriminate H.
  injection H as <-. reflexivity.
Qed.

(** X17. The token file stands in for the token: after [createSession],
    in every world that holds the session record and the token file it
    wrote and reads a clock not after the expiry, a command called without
    [--token] and without the environment variable obtains the secret. *)
Theorem sessionMnemonic_from_token_file (d n m : string) (t : option Z)
    (w : World) :
  base64url_roundtrip -> gcm_correct -> base64url_printable ->
  exists rec token,
    files (createSession d n m t w).2 !! getSessionPath d n
    = Some (SessionJson rec) /\
    files (createSession d n m t w).2 !! getTokenFilePath d n
    = Some (Text token) /\
    forall w' : World,
      files w' !! getSessionPath d n = Some (SessionJson rec) ->
      files w' !! getTokenFilePath d n = Some (Text token) ->
      clock w' 0 <= expires_at rec ->
      (sessionMnemonic JSON_stringify d n None None w').1 = Ok m.
Proof.
  intros Hb Hgcm Hprint.
  destruct (createSession_run d n m t w)
    as (id & secret & slt & nonce & ct & tag & Hid & Hsec & Hseal & _ & Hfiles).
  eexists _, _. rewrite Hfiles.
  rewrite lookup_insert_ne by (apply not_eq_sym, session_path_not_token_path).
  rewrite !lookup_insert_eq. split; [reflexivity|]. split; [reflexivity|].
  intros w' Hsession Htoken Hlive.
  destruct (resolveToken_run d n None None w') as [Hworld Hres].
  cbn [truthy] in Hres. rewrite Htoken in Hres. cbn [fileText] in Hres.
  rewrite (trim_encodeToken _ _ Hprint) in Hres.
  unfold sessionMnemonic. rewrite (bind_returns _ _ _ _ Hres), Hworld.
  refine (proj1 (validateSession_issued d n m id secret slt nonce ct tag _ w'
                   Hb Hgcm Hid Hsec Hseal _ _ _ _ Hsession Hlive));
    reflexivity.
Qed.

(** X18. Locking closes every source: after [revokeSession] a command
    called without a token fails with the no-token outcome, and a command
    that brings a token, by option or environment, fails with
    session-not-found whatever the token is. *)
Theorem sessionMnemonic_after_revoke (d n : string)
    (explicit env : option string) (w : World) :
  (truthy explicit = None -> truthy env = None ->
   failure (sessionMnemonic JSON_stringify d n explicit env
              (revokeSession d n w).2).1
   = Some ERR_NO_TOKEN) /\
  (is_Some (truthy explicit) \/ is_Some (truthy env) ->
   failure (sessionMnemonic JSON_stringify d n explicit env
              (revokeSession d n w).2).1
   = Some ERR_SESSION_NOT_FOUND).
Proof.
  destruct (revokeSession_run d n w) as [_ Hfiles].
  set (w1 := (revokeSession d n w).2) in *.
  assert (Hsession : files w1 !! getSessionPath d n = None).
  { rewrite Hfiles.
    rewrite lookup_delete_ne by (apply not_eq_sym, session_path_not_token_path).
    apply lookup_delete_eq. }
  assert (Htoken : files w1 !! getTokenFilePath d n = None)
    by (rewrite Hfiles; apply lookup_delete_eq).
  destruct (resolveToken_run d n explicit env w1) as [Hworld Hres].
  rewrite Htoken in Hres. unfold sessionMnemonic. split.
  - intros H1 H2. rewrite H1, H2 in Hres.
    rewrite (bind_throws _ _ _ _ Hres). reflexivity.
  - intros Hsome.
    assert (exists token,
              (resolveToken JSON_stringify d n explicit env w1).1 = Ok token)
      as [token Htok].
    { destruct (truthy explicit) as [t1|]; [eauto|].
      destruct (truthy env) as [t2|]; [eauto|].
      destruct Hsome as [[x H]|[x H]]; discriminate H. }
    rewrite (bind_returns _ _ _ _ Htok), Hworld.
    rewrite (validateSession_absent _ _ _ _ Hsession). reflexivity.
Qed.

End TokenFacts.

(** ** Password strength *)

Lemma count_bytes_app (p : byte -> bool) (a b : bytes) :
  count_bytes p (a ++ b) = (count_bytes p a + count_bytes p b)%nat.
Proof. induction a as [|x a IH]; cbn [app count_bytes]; [reflexivity | lia]. Qed.

Lemma js_length_app (a b : string) :
  js_length (a +:+ b) = (js_length a + js_length b)%nat.
Proof.
  unfold js_length. rewrite list_byte_of_string_app, !count_bytes_app. lia.
Qed.

(** [validatePasswordStrength] by its five tests. *)
Lemma validatePasswordStrength_cases (password : string) :
  if (MIN_PASSWORD_LENGTH <=? js_length password)%nat
     && existsb is_lower (list_byte_of_string password)
     && existsb is_upper (list_byte_of_string password)
     && existsb is_digit (list_byte_of_string password)
     && existsb is_special (list_byte_of_string password)
  then validatePasswordStrength password = Ok tt
  else exists message,
    validatePasswordStrength password
    = Throw (WalletError ERR_INVALID_INPUT message).
Proof.
  unfold validatePasswordStrength, passwordErrors.
  rewrite (Nat.ltb_antisym MIN_PASSWORD_LENGTH (js_length password)).
  destruct (MIN_PASSWORD_LENGTH <=? js_length password)%nat,
    (existsb is_lower _), (existsb is_upper _), (existsb is_digit _),
    (existsb is_special _);
    cbn [negb andb app length Nat.ltb Nat.leb]; first [reflexivity | eexists; reflexivity].
Qed.

(** X19. What a strong password is: [validatePasswordStrength] accepts
    exactly the passwords of at least 12 UTF-16 code units that hold a
    lower-case letter, an upper-case letter, a digit and a character that
    is none of these; every other password is refused with the
    invalid-input outcome. *)
Theorem validatePasswordStrength_accepts (password : string) :
  (validatePasswordStrength password = Ok tt <->
   (12 <= js_length password)%nat /\
   existsb is_lower (list_byte_of_string password) = true /\
   existsb is_upper (list_byte_of_string password) = true /\
   existsb is_digit (list_byte_of_string password) = true /\
   existsb is_special (list_byte_of_string password) = true) /\
  (forall e, validatePasswordStrength password = Throw e ->
     exn_code e = ERR_INVALID_INPUT).
Proof.
  pose proof (validatePasswordStrength_cases password) as H.
  unfold MIN_PASSWORD_LENGTH in H.
  destruct (Nat.leb_spec 12 (js_length password)) as [Hlen|Hlen];
    destruct (existsb is_lower _), (existsb is_upper _), (existsb is_digit _),
      (existsb is_special _); cbn [andb] in H;
    try (lazymatch type of H with ex _ => destruct H as [message H] end);
    rewrite H;
    (split; [split; [intros; repeat split; first [assumption | discriminate]
                    | intros (H1 & H2 & H3 & H4 & H5);
                      first [reflexivity | discriminate | lia]]
            | intros e [= <-]; reflexivity]).
Qed.

(** X20. Strength survives extension: a password that is accepted stays
    accepted when any text is put before it or after it. *)
Theorem validatePasswordStrength_extend (password more : string) :
  validatePasswordStrength password = Ok tt ->
  validatePasswordStrength (password +:+ more) = Ok tt /\
  validatePasswordStrength (more +:+ password) = Ok tt.
Proof.
  intros Hok.
  assert (Hall : ((MIN_PASSWORD_LENGTH <=? js_length password)%nat
                  && existsb is_lower (list_byte_of_string password)
                  && existsb is_upper (list_byte_of_string password)
                  && existsb is_digit (list_byte_of_string password)
                  && existsb is_special (list_byte_of_string password)) = true).
  { pose proof (validatePasswordStrength_cases password) as H.
    destruct (_ && _); [reflexivity|].
    destruct H as [message H]. congruence. }
  apply andb_prop in Hall as [Hall Hs]. apply andb_prop in Hall as [Hall Hd].
  apply andb_prop in Hall as [Hall Hu]. apply andb_prop in Hall as [Hlen Hl].
  apply Nat.leb_le in Hlen.
  split.
  - pose proof (validatePasswordStrength_cases (password +:+ more)) as H.
    rewrite list_byte_of_string_app, !existsb_app, js_length_app in H.
    rewrite Hl, Hu, Hd, Hs in H. cbn [orb andb] in H.
    rewrite (proj2 (Nat.leb_le _ _)) in H by lia. exact H.
  - pose proof (validatePasswordStrength_cases (more +:+ password)) as H.
    rewrite list_byte_of_string_app, !existsb_app, js_length_app in H.
    rewrite Hl, Hu, Hd, Hs, !orb_true_r in H. cbn [andb] in H.
    rewrite (proj2 (Nat.leb_le _ _)) in H by lia. exact H.
Qed.

(** ** Wallet creation *)

Lemma length_append (a b : string) :
  String.length (a +:+ b) = (String.length a + String.length b)%nat.
Proof.
  induction a as [|x a IH]; [reflexivity|].
  change (S (String.length (a +:+ b)) = S (String.length a + String.length b)).
  now rewrite IH.
Qed.

(** The mnemonic file of a wallet is not its keystore. *)
Lemma mnemonic_path_not_keystore_path (d n : string) :
  join d (n +:+ ".mnemonic") <> getKeystorePath d n.
Proof.
  unfold getKeystorePath, getKeystoreDir, join. intros H.
  rewrite !append_assoc in H. apply append_cancel_l in H.
  apply (f_equal String.length) in H. rewrite !length_append in H.
  cbn [String.length] in H. lia.
Qed.

Section InitFacts.
Context `{RT : Runtime}.
Variable entropyToMnemonic : bytes -> string.

(** The record [createKeystore] returns carries the name it was given and
    the two addresses of the secret. *)
Lemma createKeystore_fields (d n secret P : string) (w : World)
    (ks : KeystoreFile) :
  (createKeystore d n secret P w).1 = Ok ks ->
  name ks = n /\
  exists a, deriveAddresses secret 0 = Ok a /\
            addresses_ethereum ks = [a.1] /\ addresses_solana ks = [a.2].
Proof.
  unfold createKeystore, encryptMnemonic, deriveKeyFromPassword, encryptAesGcm.
  io. destruct (files w !! getKeystorePath d n); [discriminate|]. io.
  destruct (gcm_encrypt _ _ _) as [ct' tag']. io.
  destruct (deriveAddresses secret 0) as [a|e]; [|discriminate]. io.
  intros [= <-]. cbn. split; [reflexivity|].
  exists a. split; [reflexivity|]. split; reflexivity.
Qed.

(** [generateMnemonic] draws 16 or 32 bytes and touches no file. *)
Lemma generateMnemonic_run (count : Z) (w : World) :
  exists drawn,
    (generateMnemonic entropyToMnemonic count w).1
    = Ok (entropyToMnemonic drawn) /\
    length drawn = (if count =? 24 then 32%nat else 16%nat) /\
    files (generateMnemonic entropyToMnemonic count w).2 = files w.
Proof.
  unfold generateMnemonic. io. eexists. split; [reflexivity|].
  split; [|reflexivity].
  rewrite length_map, length_seq. destruct (count =? 24); reflexivity.
Qed.

Lemma validatePasswordStrength_throws (password : string) (e : Exn) :
  validatePasswordStrength password = Throw e -> exn_code e = ERR_INVALID_INPUT.
Proof.
  pose proof (validatePasswordStrength_cases password) as H.
  destruct (_ && _); [congruence|].
  destruct H as [message ->]. intros [= <-]. reflexivity.
Qed.

(** X21. Nothing is created on bad input: when the two typed passwords
    differ, or the password is not strong, or the word count is neither 12
    nor 24, [init] fails with the invalid-input outcome and the world is as
    it was: no entropy is drawn and no file is written. *)
Theorem init_rejects_before_writing (d n : string) (opt : option string)
    (typed confirm : string) (wc : option Z) (w : World) :
  (truthy opt = None /\ typed <> confirm) \/
  validatePasswordStrength (default typed (truthy opt)) <> Ok tt \/
  (wc <> Some 12 /\ wc <> Some 24) ->
  failure (init entropyToMnemonic d n opt typed confirm wc w).1
  = Some ERR_INVALID_INPUT /\
  (init entropyToMnemonic d n opt typed confirm wc w).2 = w.
Proof.
  intros H.
  assert (Hchecks :
    forall p : string,
      validatePasswordStrength p <> Ok tt \/ (wc <> Some 12 /\ wc <> Some 24) ->
      forall k : Z -> M InitOutput,
      let run :=
        (if String.eqb p EmptyString then
           throw (WalletError ERR_INVALID_INPUT "Password is required")
         else
           run! of_result (validatePasswordStrength p) in
           match wc with
           | Some count =>
               if negb (count =? 12) && negb (count =? 24) then
                 throw (WalletError ERR_INVALID_INPUT "Word count must be 12 or 24")
               else k count
           | None =>
               throw (WalletError ERR_INVALID_INPUT "Word count must be 12 or 24")
           end) w in
      failure run.1 = Some ERR_INVALID_INPUT /\ run.2 = w).
  { intros p Hp k. cbv zeta.
    destruct (String.eqb p EmptyString); [split; reflexivity|]. io.
    destruct (validatePasswordStrength p) as [[]|e] eqn:V.
    2:{ cbn [fst snd failure].
        rewrite (validatePasswordStrength_throws _ _ V). split; reflexivity. }
    destruct Hp as [Hp|[H12 H24]]; [destruct (Hp eq_refl)|].
    destruct wc as [c|]; [|split; reflexivity].
    destruct (Z.eqb_spec c 12) as [->|_]; [destruct (H12 eq_refl)|].
    destruct (Z.eqb_spec c 24) as [->|_]; [destruct (H24 eq_refl)|].
    split; reflexivity. }
  unfold init. destruct (truthy opt) as [p|]; cbn [default] in H.
  - destruct H as [[H _]|H]; [discriminate H|].
    unfold bind at 1, ret at 1. apply (Hchecks p H).
  - destruct (String.eqb_spec typed confirm) as [Heq|Hne]; cbn [negb].
    + destruct H as [[_ H]|H]; [destruct (H Heq)|].
      unfold bind at 1, ret at 1. apply (Hchecks typed H).
    + split; reflexivity.
Qed.

(** X22. What [init] leaves on disk: when it succeeds the password was
    strong, the store gains the keystore of the wallet and the mnemonic
    file, which holds the generated mnemonic in clear followed by a line
    feed; that mnemonic is what the keystore decrypts to under the
    password, and the addresses reported are the ones derived from it. *)
Theorem init_stores_mnemonic (d n : string) (opt : option string)
    (typed confirm : string) (wc : option Z) (w : World) (out : InitOutput) :
  gcm_correct ->
  (init entropyToMnemonic d n opt typed confirm wc w).1 = Ok out ->
  validatePasswordStrength (default typed (truthy opt)) = Ok tt /\
  out_name out = n /\
  mnemonic_file out = join d (n +:+ ".mnemonic") /\
  exists mnemonic ks,
    files (init entropyToMnemonic d n opt typed confirm wc w).2
    = <[join d (n +:+ ".mnemonic") := Text (mnemonic +:+ newline)]>
        (<[getKeystorePath d n := KeystoreJson ks]> (files w)) /\
    (decryptKeystore d n (default typed (truthy opt))
       (init entropyToMnemonic d n opt typed confirm wc w).2).1
    = Ok mnemonic /\
    deriveAddresses mnemonic 0 = Ok (out_ethereum out, out_solana out).
Proof.
  intros Hgcm Hok.
  destruct (init entropyToMnemonic d n opt typed confirm wc w) as [res w3]
    eqn:Hrun.
  cbn [fst snd] in *. subst res.
  assert (Hbody : exists c,
    validatePasswordStrength (default typed (truthy opt)) = Ok tt /\
    (let! mnemonic := generateMnemonic entropyToMnemonic c in
     let! keystore :=
       createKeystore d n mnemonic (default typed (truthy opt)) in
     let! addresses := of_result (deriveAddresses mnemonic 0) in
     let mnemonicFilePath := join d (n +:+ ".mnemonic") in
     run! writeFile mnemonicFilePath (Text (mnemonic +:+ newline)) in
     ret {| out_name := name keystore;
            out_ethereum := addresses.1;
            out_solana := addresses.2;
            mnemonic_file := mnemonicFilePath |}) w
    = (Ok out, w3)).
  { revert Hrun. unfold init.
    assert (Hchecks : forall p : string,
      (if String.eqb p EmptyString then
         throw (WalletError ERR_INVALID_INPUT "Password is required")
       else
         run! of_result (validatePasswordStrength p) in
         match wc with
         | Some count =>
             if negb (count =? 12) && negb (count =? 24) then
               throw (WalletError ERR_INVALID_INPUT "Word count must be 12 or 24")
             else
               let! mnemonic := generateMnemonic entropyToMnemonic count in
               let! keystore := createKeystore d n mnemonic p in
               let! addresses := of_result (deriveAddresses mnemonic 0) in
               let mnemonicFilePath := join d (n +:+ ".mnemonic") in
               run! writeFile mnemonicFilePath (Text (mnemonic +:+ newline)) in
               ret {| out_name := name keystore;
                      out_ethereum := addresses.1;
                      out_solana := addresses.2;
                      mnemonic_file := mnemonicFilePath |}
         | None =>
             throw (WalletError ERR_INVALID_INPUT "Word count must be 12 or 24")
         end) w = (Ok out, w3) ->
      exists c,
        validatePasswordStrength p = Ok tt /\
        (let! mnemonic := generateMnemonic entropyToMnemonic c in
         let! keystore := createKeystore d n mnemonic p in
         let! addresses := of_result (deriveAddresses mnemonic 0) in
         let mnemonicFilePath := join d (n +:+ ".mnemonic") in
         run! writeFile mnemonicFilePath (Text (mnemonic +:+ newline)) in
         ret {| out_name := name keystore;
                out_ethereum := addresses.1;
                out_solana := addresses.2;
                mnemonic_file := mnemonicFilePath |}) w
        = (Ok out, w3)).
    { intros p. destruct (String.eqb p EmptyString); [discriminate|].
      unfold bind at 1, of_result at 1.
      destruct (validatePasswordStrength p) as [[]|e]; [|discriminate].
      destruct wc as [c|]; [|discriminate].
      destruct (negb (c =? 12) && negb (c =? 24)); [discriminate|].
      intros Hrun. exists c. split; [reflexivity | exact Hrun]. }
    destruct (truthy opt) as [p|]; cbn [default].
    - unfold bind at 1, ret at 1. apply Hchecks.
    - destruct (String.eqb typed confirm); cbn [negb]; [|discriminate].
      unfold bind at 1, ret at 1. apply Hchecks. }
  destruct Hbody as (c & Hstrong & Hbody). split; [exact Hstrong|].
  set (password := default typed (truthy opt)) in *.
  destruct (generateMnemonic_run c w) as (drawn & Hgen & _ & Hgenfiles).
  rewrite (bind_returns _ _ _ _ Hgen) in Hbody.
  set (w1 := (generateMnemonic entropyToMnemonic c w).2) in *.
  set (mnemonic := entropyToMnemonic drawn) in *.
  destruct (createKeystore d n mnemonic password w1) as [[ks|e] w2] eqn:Hcreate.
  2:{ unfold bind at 1 in Hbody. rewrite Hcreate in Hbody. discriminate. }
  assert (Hcreated : (createKeystore d n mnemonic password w1).1 = Ok ks)
    by (rewrite Hcreate; reflexivity).
  destruct (createKeystore_fields _ _ _ _ _ _ Hcreated)
    as (Hname & a & Hderive & _).
  destruct (createKeystore_run _ _ _ _ _ _ _ Hcreate) as (_ & Hfiles & _).
  unfold bind at 1 in Hbody. rewrite Hcreate in Hbody.
  unfold bind at 1, of_result at 1 in Hbody. rewrite Hderive in Hbody.
  revert Hbody. io. intros [= <- <-]. cbn [out_name mnemonic_file files
    out_ethereum out_solana].
  split; [exact Hname|]. split; [reflexivity|].
  exists mnemonic, ks. split; [rewrite Hfiles, Hgenfiles; reflexivity|].
  split; [|destruct a; exact Hderive].
  erewrite created_keystore_opens; [reflexivity | exact Hgcm | exact Hcreated |].
  cbn [files]. rewrite lookup_insert_ne by apply mnemonic_path_not_keystore_path.
  rewrite Hfiles. apply lookup_insert_eq.
Qed.

End InitFacts.

(** * The list of wallets *)

Lemma first_segment_append (n s : string) :
  includes n "/" = false -> first_segment (n +:+ s) = n +:+ first_segment s.
Proof.
  induction n as [|c n IH]; [reflexivity|].
  cbn [includes String.prefix]. intros H. apply orb_false_iff in H as [Hc Hn].
  change (first_segment (String c (n +:+ s)) = String c (n +:+ first_segment s)).
  cbn [first_segment].
  destruct (Ascii.eqb_spec c "/") as [->|_].
  - rewrite prefix_empty in Hc. destruct (ascii_dec "/" "/"); [discriminate|contradiction].
  - now rewrite (IH Hn).
Qed.

Lemma entry_of_file (dir file : string) :
  entry_of dir (join dir file) = Some (first_segment file).
Proof.
  unfold entry_of, join. rewrite <- append_assoc, prefix_append.
  replace (String.length dir + 1)%nat with (String.length (dir +:+ "/"))
    by (rewrite length_append; reflexivity).
  now rewrite slice_append.
Qed.

Lemma endsWith_append (n suffix : string) : endsWith (n +:+ suffix) suffix = true.
Proof.
  unfold endsWith. rewrite length_append.
  replace (String.length n + String.length suffix - String.length suffix)%nat
    with (String.length n) by lia.
  rewrite slice_append, String.eqb_refl, (proj2 (Nat.leb_le _ _)) by lia.
  reflexivity.
Qed.

Lemma prefix_cons (a b : ascii) (p s : string) :
  String.prefix (String a p) (String b s) = Ascii.eqb a b && String.prefix p s.
Proof.
  cbn [String.prefix]. destruct (ascii_dec a b) as [->|Hne].
  - now rewrite Ascii.eqb_refl.
  - apply Ascii.eqb_neq in Hne. now rewrite Hne.
Qed.

(** [.json] does not overlap itself: it starts a text that ends with it
    only where it starts the text before it. *)
Lemma prefix_json_append (s : string) :
  s <> EmptyString ->
  String.prefix ".json" (s +:+ ".json") = true -> String.prefix ".json" s = true.
Proof.
  intros Hs.
  destruct s as [|c1 [|c2 [|c3 [|c4 [|c5 s]]]]]; [contradiction|..];
    repeat match goal with
           | |- context [String ?c ?s +:+ ?t] =>
               change (String c s +:+ t) with (String c (s +:+ t))
           | |- context [EmptyString +:+ ?t] =>
               change (EmptyString +:+ t) with t
           end;
    rewrite ?prefix_cons, ?prefix_empty;
    repeat match goal with
           | |- context [Ascii.eqb ?a ?b] =>
               destruct (Ascii.eqb_spec a b); [subst|]; cbn [andb]
           end;
    try discriminate; try reflexivity.
Qed.

Lemma replace_json_suffix (n : string) :
  includes n ".json" = false -> replace (n +:+ ".json") ".json" EmptyString = n.
Proof.
  induction n as [|c n IH]; [reflexivity|].
  cbn [includes]. intros H. apply orb_false_iff in H as [Hc Hn].
  change (replace (String c (n +:+ ".json")) ".json" EmptyString = String c n).
  cbn [replace].
  destruct (String.prefix ".json" (String c (n +:+ ".json"))) eqn:Hp.
  - change (String c (n +:+ ".json")) with (String c n +:+ ".json") in Hp.
    apply prefix_json_append in Hp; [congruence | discriminate].
  - now rewrite (IH Hn).
Qed.

Section ListFacts.

(** X23. Stored wallets are listed: when a file is stored at the keystore
    path of a name that holds neither [/] nor [.json], [listKeystores]
    returns a list with that name and leaves the world alone; and when no
    path of the store lies under the keystore directory it returns the
    empty list. *)
Theorem listKeystores_lists_stored (d n : string) (w : World) :
  (forall f, files w !! getKeystorePath d n = Some f ->
     includes n "/" = false -> includes n ".json" = false ->
     exists names, listKeystores d w = (Ok names, w) /\ n ∈ names) /\
  ((forall p, String.prefix (getKeystoreDir d +:+ "/") p = true ->
      files w !! p = None) ->
   listKeystores d w = (Ok [], w)).
Proof.
  split.
  - intros f Hfile Hslash Hjson.
    assert (Hentry : n +:+ ".json" ∈ entries (getKeystoreDir d) w).
    { unfold entries. apply elem_of_remove_dups, list_elem_of_omap.
      exists (getKeystorePath d n). split.
      - apply list_elem_of_fmap. exists (getKeystorePath d n, f).
        split; [reflexivity|]. apply elem_of_map_to_list, Hfile.
      - unfold getKeystorePath. rewrite entry_of_file.
        rewrite (first_segment_append _ _ Hslash). reflexivity. }
    unfold listKeystores, directoryExists, readdir. io.
    destruct (entries (getKeystoreDir d) w) as [|e es] eqn:E;
      [apply elem_of_nil in Hentry; destruct Hentry|].
    cbn [negb]. eexists. split; [reflexivity|].
    apply list_elem_of_fmap. exists (n +:+ ".json").
    split; [symmetry; apply replace_json_suffix, Hjson|].
    apply list_elem_of_filter. split; [apply endsWith_append|].
    rewrite ?E. exact Hentry.
  - intros Hnone.
    assert (Hempty : entries (getKeystoreDir d) w = []).
    { unfold entries.
      replace (omap (entry_of (getKeystoreDir d)) (map_to_list (files w)).*1)
        with (@nil string); [reflexivity|].
      symmetry. apply elem_of_nil_inv. intros x Hx.
      apply list_elem_of_omap in Hx as (p & Hp & Hx).
      apply list_elem_of_fmap in Hp as ([p' f] & -> & Hp).
      apply elem_of_map_to_list in Hp. cbn [fst] in Hx.
      unfold entry_of in Hx.
      destruct (String.prefix (getKeystoreDir d +:+ "/") p') eqn:Hpre;
        [|discriminate].
      rewrite (Hnone _ Hpre) in Hp. discriminate. }
    unfold listKeystores, directoryExists, readdir. io. rewrite Hempty.
    reflexivity.
Qed.

End ListFacts.

(** * The hardened session engine *)

(** On members with distinct keys, [obj[k]] is [v] exactly when the
    member [(k, v)] is there. *)
Lemma property_Some {A} (k : string) (v : A) (members : list (string * A)) :
  NoDup members.*1 -> property k members = Some v <-> (k, v) ∈ members.
Proof.
  induction members as [|[k' v'] rest IH]; cbn [property fmap list_fmap fst].
  - intros _. split; [discriminate | intros H; apply elem_of_nil in H as []].
  - intros Hnd. apply NoDup_cons in Hnd as [Hk' Hnd].
    destruct (String.eqb_spec k k') as [->|Hne].
    + split.
      * intros [= ->]. apply list_elem_of_here.
      * intros H. apply elem_of_cons in H as [[= ->]|H]; [reflexivity|].
        destruct Hk'. apply list_elem_of_fmap. exists (k', v). split; done.
    + rewrite (IH Hnd). split.
      * intros H. apply list_elem_of_further, H.
      * intros H. apply elem_of_cons in H as [[= -> _]|H]; [destruct (Hne eq_refl) | exact H].
Qed.

Lemma property_Permutation {A} (k : string) (l l' : list (string * A)) :
  NoDup l.*1 -> l ≡ₚ l' -> property k l = property k l'.
Proof.
  intros Hnd Hperm.
  assert (Hnd' : NoDup l'.*1) by (rewrite <- Hperm; exact Hnd).
  destruct (property k l) as [v|] eqn:E.
  - symmetry. apply (property_Some _ _ _ Hnd'). rewrite <- Hperm.
    apply (property_Some _ _ _ Hnd), E.
  - destruct (property k l') as [v'|] eqn:E'; [|reflexivity].
    apply (property_Some _ _ _ Hnd') in E'. rewrite <- Hperm in E'.
    apply (property_Some _ _ _ Hnd) in E'. congruence.
Qed.

(** X24. The canonical text does not depend on the order of the members:
    two objects with distinct keys whose members are, up to their order,
    the same keys with canonically equal values have the same
    [canonicalJson]. *)
Theorem canonicalJson_key_order (members members' : list (string * Json)) :
  NoDup members.*1 ->
  (fun kv => (kv.1, canonicalJson kv.2)) <$> members
  ≡ₚ (fun kv => (kv.1, canonicalJson kv.2)) <$> members' ->
  canonicalJson (JObject members) = canonicalJson (JObject members').
Proof.
  intros Hnd Hperm. cbn [canonicalJson].
  assert (Hrender : forall l : list (string * Json),
            map (fun kv => match kv with (k, v) => (k, canonicalJson v) end) l
            = (fun kv => (kv.1, canonicalJson kv.2)) <$> l).
  { intros l. apply map_ext. intros [k v]. reflexivity. }
  rewrite !Hrender.
  set (r := (fun kv => (kv.1, canonicalJson kv.2)) <$> members) in *.
  set (r' := (fun kv => (kv.1, canonicalJson kv.2)) <$> members') in *.
  assert (Hkeys : NoDup r.*1).
  { unfold r. rewrite <- list_fmap_compose.
    erewrite list_fmap_ext; [exact Hnd|]. intros i [k v] _. reflexivity. }
  assert (Hsorted : merge_sort String.le (map fst r)
                    = merge_sort String.le (map fst r')).
  { apply (Sorted_unique String.le); try apply Sorted_merge_sort; try apply _.
    rewrite !merge_sort_Permutation. change (r.*1 ≡ₚ r'.*1).
    now rewrite Hperm. }
  rewrite <- Hsorted. f_equal. f_equal. f_equal. apply map_ext. intros k.
  now rewrite (property_Permutation k r r' Hkeys Hperm).
Qed.

Section HardenedFacts.
Context `{RT : Runtime}.
Variable toISOString : Z -> string.

(** What the hardened [createSession] draws, returns and writes. *)
Lemma hardened_createSession_run (d n m : string) (t : option Z) (w : World) :
  exists (id secret salt nonce ct tag : bytes) (rec : SessionFile),
    length id = TOKEN_ID_SIZE /\ length secret = TOKEN_SECRET_SIZE /\
    gcm_encrypt (deriveHkdfKey secret salt Hardened.HKDF_INFO 32) nonce
      (list_byte_of_string m) = (ct, tag) /\
    version rec = 1 /\ wallet_name rec = n /\
    token_id rec = toString_hex id /\
    hmac rec = toString_hex (Hardened.recordHmac toISOString secret rec) /\
    hkdf_salt rec = toString_hex salt /\
    cipher rec = {| cipher_algorithm := "aes-256-gcm";
                    iv := toString_hex nonce;
                    auth_tag := toString_hex tag;
                    ciphertext := toString_hex ct |} /\
    created_at rec = clock w 0 /\
    expires_at rec
    = clock w 0 + Z.min (default DEFAULT_DURATION t) MAX_DURATION * 1000 /\
    (Hardened.createSession toISOString d n m t w).1
    = Ok (encodeToken id secret) /\
    files (Hardened.createSession toISOString d n m t w).2
    = <[getSessionPath d n := SessionJson rec]> (files w).
Proof.
  unfold Hardened.createSession, secureRandom, encryptAesGcm, bind,
    randomBytes, now, writeFile, ret.
  cbn [fst snd files clock entropy].
  match goal with
  | |- context [gcm_encrypt ?k ?i ?p] => destruct (gcm_encrypt k i p) as [ct tag] eqn:E
  end.
  cbn [fst snd files clock entropy].
  eexists _, _, _, _, ct, tag, _.
  repeat match goal with |- _ /\ _ => split end.
  13: reflexivity.
  3: exact E.
  all: try reflexivity.
  all: rewrite length_map, length_seq; reflexivity.
Qed.

(** A record with the fields of an issued session validates with the
    issued token. *)
Lemma hardened_validateSession_issued (d n m : string)
    (id secret slt nonce ct tag : bytes) (rec : SessionFile) (w' : World) :
  base64url_roundtrip -> gcm_correct ->
  length id = TOKEN_ID_SIZE -> length secret = TOKEN_SECRET_SIZE ->
  gcm_encrypt (deriveHkdfKey secret slt Hardened.HKDF_INFO 32) nonce
    (list_byte_of_string m) = (ct, tag) ->
  token_id rec = toString_hex id ->
  hmac rec = toString_hex (Hardened.recordHmac toISOString secret rec) ->
  hkdf_salt rec = toString_hex slt ->
  cipher rec = {| cipher_algorithm := "aes-256-gcm";
                  iv := toString_hex nonce;
                  auth_tag := toString_hex tag;
                  ciphertext := toString_hex ct |} ->
  files w' !! getSessionPath d n = Some (SessionJson rec) ->
  clock w' 0 <= expires_at rec ->
  (Hardened.validateSession toISOString d n (encodeToken id secret) w').1 = Ok m /\
  files (Hardened.validateSession toISOString d n (encodeToken id secret) w').2
  = files w'.
Proof.
  intros Hb Hgcm Hid Hsec Hseal Htid Hmac Hsalt Hcipher Hfile Hlive.
  apply Z.ltb_ge in Hlive.
  unfold Hardened.validateSession, readSessionFile. io. rewrite Hfile. io.
  rewrite Hfile. io. rewrite Hlive.
  rewrite decodeToken_encodeToken by assumption. io.
  rewrite Htid, String.eqb_refl. cbn [negb].
  rewrite <- Hmac, String.eqb_refl. cbn [negb].
  unfold decryptAesGcm. io. rewrite Hsalt, Hcipher. cbn [iv auth_tag ciphertext].
  rewrite !from_hex_toString_hex, (Hgcm _ _ _ _ _ Hseal).
  rewrite string_of_list_byte_of_string. split; reflexivity.
Qed.

(** X25. The hardened engine keeps the token off the disk: its
    [createSession] changes the store at the session path only, where it
    puts the session record, so no token file appears; and its
    [resolveToken] reads no file: without a non-empty option or environment
    variable it fails with the no-token outcome in every world. *)
Theorem hardened_token_not_stored (d n m : string) (t : option Z) (w : World) :
  (exists rec,
     files (Hardened.createSession toISOString d n m t w).2
     = <[getSessionPath d n := SessionJson rec]> (files w)) /\
  (forall p, p <> getSessionPath d n ->
     files (Hardened.createSession toISOString d n m t w).2 !! p
     = files w !! p) /\
  (forall (explicit env : option string) (w' : World),
     truthy explicit = None -> truthy env = None ->
     failure (Hardened.resolveToken d n explicit env w').1 = Some ERR_NO_TOKEN /\
     (Hardened.resolveToken d n explicit env w').2 = w').
Proof.
  destruct (hardened_createSession_run d n m t w)
    as (id & secret & slt & nonce & ct & tag & rec & H).
  repeat match type of H with _ /\ _ => destruct H as [_ H] end.
  split; [exists rec; exact H|]. split.
  - intros p Hp. rewrite H. apply lookup_insert_ne, not_eq_sym, Hp.
  - intros explicit env w' H1 H2. unfold Hardened.resolveToken.
    rewrite H1, H2. split; reflexivity.
Qed.

(** X26. Round trip of the hardened engine: the token that its
    [createSession] returns validates against the record it stored, in
    every world that holds that record and reads a clock not after its
    expiry, and gives the secret back without changing the store. *)
Theorem hardened_session_roundtrip (d n m : string) (t : option Z) (w : World) :
  base64url_roundtrip -> gcm_correct ->
  exists token rec,
    (Hardened.createSession toISOString d n m t w).1 = Ok token /\
    files (Hardened.createSession toISOString d n m t w).2
      !! getSessionPath d n
    = Some (SessionJson rec) /\
    forall w' : World,
      files w' !! getSessionPath d n = Some (SessionJson rec) ->
      clock w' 0 <= expires_at rec ->
      (Hardened.validateSession toISOString d n token w').1 = Ok m /\
      files (Hardened.validateSession toISOString d n token w').2 = files w'.
Proof.
  intros Hb Hgcm.
  destruct (hardened_createSession_run d n m t w)
    as (id & secret & slt & nonce & ct & tag & rec & Hid & Hsec & Hseal & _ & _
        & Htid & Hmac & Hsalt & Hcipher & _ & _ & Hres & Hfiles).
  exists (encodeToken id secret), rec. split; [exact Hres|].
  rewrite Hfiles, lookup_insert_eq. split; [reflexivity|].
  intros w' Hfile Hlive.
  exact (hardened_validateSession_issued d n m id secret slt nonce ct tag rec w'
           Hb Hgcm Hid Hsec Hseal Htid Hmac Hsalt Hcipher Hfile Hlive).
Qed.


End HardenedFacts.

(** * Concrete runs of the commands and of the hardened engine *)

Lemma standin_base64url_printable : base64url_printable (H := Standin.runtime).
Proof.
  intros b. cbn. induction b as [|x b IH]; [constructor|].
  cbn [toString_hex]. repeat constructor; [..|exact IH];
    destruct x; reflexivity.
Defined.

Lemma first_issue_token_file :
  files Standin.first_issue.2 !! getTokenFilePath "/w" "default"
  = Some (Text Standin.FIRST_TOKEN).
Proof. vm_compute. reflexivity. Qed.

Lemma sessionMnemonic_from_token_file_witness :
  (sessionMnemonic (RT := Standin.runtime) Standin.stringify "/w" "default"
     None None Standin.first_issue.2).1
  = Ok Standin.MNEMONIC.
Proof.
  destruct (sessionMnemonic_from_token_file (RT := Standin.runtime)
              Standin.stringify "/w" "default" Standin.MNEMONIC (Some 3600)
              (Standin.world 1) standin_base64url_roundtrip standin_gcm_correct
              standin_base64url_printable)
    as (rec & token & Hrec & Htoken & Hany).
  vm_compute in Hrec. injection Hrec as <-.
  vm_compute in Htoken. injection Htoken as <-.
  refine (Hany Standin.first_issue.2 first_issue_stores first_issue_token_file _).
  vm_compute. discriminate.
Defined.

Lemma password_is_strong : validatePasswordStrength Standin.PASSWORD = Ok tt.
Proof. vm_compute. reflexivity. Qed.

Lemma validatePasswordStrength_extend_witness :
  validatePasswordStrength (Standin.PASSWORD +:+ " and more") = Ok tt /\
  validatePasswordStrength (" and more" +:+ Standin.PASSWORD) = Ok tt.
Proof.
  exact (validatePasswordStrength_extend Standin.PASSWORD " and more"
           password_is_strong).
Defined.

Lemma short_password_is_weak :
  validatePasswordStrength (default EmptyString (truthy (Some "abc"))) <> Ok tt.
Proof. vm_compute. discriminate. Qed.

Lemma init_rejects_before_writing_witness :
  failure (init (RT := Standin.runtime) Standin.words "/w" "default"
             (Some "abc") EmptyString EmptyString (Some 12) (Standin.world 1)).1
  = Some ERR_INVALID_INPUT /\
  (init (RT := Standin.runtime) Standin.words "/w" "default"
     (Some "abc") EmptyString EmptyString (Some 12) (Standin.world 1)).2
  = Standin.world 1.
Proof.
  exact (init_rejects_before_writing (RT := Standin.runtime) Standin.words
           "/w" "default" (Some "abc") EmptyString EmptyString (Some 12)
           (Standin.world 1) (or_intror (or_introl short_password_is_weak))).
Defined.

Lemma init_runs :
  (init (RT := Standin.runtime) Standin.words "/w" "default"
     (Some Standin.PASSWORD) EmptyString EmptyString (Some 12)
     (Standin.world 20000)).1
  = Ok Standin.init_output.
Proof. vm_compute. reflexivity. Qed.

Lemma init_stores_mnemonic_witness :
  validatePasswordStrength
    (default EmptyString (truthy (Some Standin.PASSWORD))) = Ok tt /\
  out_name Standin.init_output = "default" /\
  mnemonic_file Standin.init_output = join "/w" ("default" +:+ ".mnemonic").
Proof.
  pose proof (init_stores_mnemonic (RT := Standin.runtime) Standin.words
                "/w" "default" (Some Standin.PASSWORD) EmptyString EmptyString
                (Some 12) (Standin.world 20000) Standin.init_output
                standin_gcm_correct init_runs) as (H1 & H2 & H3 & _).
  split; [exact H1|]. split; [exact H2 | exact H3].
Defined.

Lemma canonicalJson_key_order_witness :
  canonicalJson (JObject [("b", JNumber 2); ("a", JArray [JString "x"; JNull])])
  = canonicalJson (JObject [("a", JArray [JString "x"; JNull]); ("b", JNumber 2)]).
Proof.
  apply canonicalJson_key_order.
  - apply (bool_decide_unpack _). vm_compute. exact I.
  - apply perm_swap.
Defined.

Lemma hardened_issue_token :
  Standin.hardened_issue.1 = Ok Standin.FIRST_TOKEN.
Proof. vm_compute. reflexivity. Qed.

Lemma hardened_issue_stores :
  files Standin.hardened_issue.2 !! getSessionPath "/w" "default"
  = Some (SessionJson Standin.hardened_record).
Proof. vm_compute. reflexivity. Qed.

Lemma hardened_session_roundtrip_witness :
  (Hardened.validateSession (RT := Standin.runtime) Standin.iso "/w" "default"
     Standin.FIRST_TOKEN Standin.hardened_issue.2).1
  = Ok Standin.MNEMONIC.
Proof.
  destruct (hardened_session_roundtrip (RT := Standin.runtime) Standin.iso
              "/w" "default" Standin.MNEMONIC (Some 3600) (Standin.world 1)
              standin_base64url_roundtrip standin_gcm_correct)
    as (token & rec & Htoken & Hrec & Hany).
  vm_compute in Htoken. injection Htoken as <-.
  vm_compute in Hrec. injection Hrec as <-.
  refine (proj1 (Hany Standin.hardened_issue.2 hardened_issue_stores _)).
  vm_compute. discriminate.
Defined.



(** * Token amounts *)

Lemma append_nil_r (s : string) : s +:+ EmptyString = s.
Proof.
  induction s as [|c s IH]; [reflexivity|].
  change (String c (s +:+ EmptyString) = String c s). now rewrite IH.
Qed.

Lemma append_cons (c : ascii) (s t : string) :
  String c s +:+ t = String c (s +:+ t).
Proof. reflexivity. Qed.

Lemma all_digits_append (a b : string) :
  all_digits (a +:+ b) = all_digits a && all_digits b.
Proof.
  induction a as [|c a IH]; [reflexivity|].
  rewrite append_cons. cbn [all_digits]. rewrite IH. apply andb_assoc.
Qed.

Lemma all_digits_zeros (k : nat) : all_digits (zeros k) = true.
Proof. induction k as [|k IH]; [reflexivity | exact IH]. Qed.

Lemma length_zeros (k : nat) : String.length (zeros k) = k.
Proof. induction k as [|k IH]; cbn [zeros String.length]; congruence. Qed.

Lemma parse_digits_zeros (k : nat) (s : string) :
  parse_digits 10 0 (zeros k +:+ s) = parse_digits 10 0 s.
Proof. induction k as [|k IH]; [reflexivity | exact IH]. Qed.

(** The characters of [pretty] are the ten digits, each with its value. *)
Lemma pretty_N_char_digit (x : N) :
  (x < 10)%N ->
  decimal_digit (pretty_N_char x) = true /\
  hex_value (pretty_N_char x) = Some x.
Proof.
  intros H.
  assert (x = 0 \/ x = 1 \/ x = 2 \/ x = 3 \/ x = 4 \/ x = 5 \/ x = 6 \/ x = 7
          \/ x = 8 \/ x = 9)%N as Hx by lia.
  repeat destruct Hx as [->|Hx]; try subst x; split; reflexivity.
Qed.

Lemma all_digits_pretty_N_go (x : N) (s : string) :
  all_digits s = true -> all_digits (pretty_N_go x s) = true.
Proof.
  revert s. induction (N.lt_wf_0 x) as [x _ IH]. intros s Hs.
  destruct (N.eq_dec x 0%N) as [->|Hx]; [exact Hs|].
  rewrite pretty_N_go_step by lia. apply IH; [apply N.div_lt; lia|].
  cbn [all_digits].
  rewrite (proj1 (pretty_N_char_digit (x mod 10) (N.mod_lt x 10%N ltac:(lia)))).
  exact Hs.
Qed.

(** Reading the digits that [pretty] wrote in front of a text continues
    from the number written. *)
Lemma parse_digits_pretty_N_go (x : N) (s : string) :
  exists k : N, forall acc : N,
    parse_digits 10 acc (pretty_N_go x s)
    = parse_digits 10 (acc * 10 ^ k + x) s.
Proof.
  revert s. induction (N.lt_wf_0 x) as [x _ IH]. intros s.
  destruct (N.eq_dec x 0%N) as [->|Hx].
  - exists 0%N. intros acc. rewrite pretty_N_go_0. f_equal. cbn. lia.
  - destruct (IH (x / 10)%N ltac:(apply N.div_lt; lia)
                (String (pretty_N_char (x mod 10)) s)) as [k Hk].
    exists (N.succ k). intros acc. rewrite pretty_N_go_step, Hk by lia.
    cbn [parse_digits].
    destruct (pretty_N_char_digit (x mod 10) (N.mod_lt x 10%N ltac:(lia)))
      as [_ ->].
    rewrite (proj2 (N.ltb_lt _ _) (N.mod_lt x 10%N ltac:(lia))). f_equal.
    rewrite N.pow_succ_r'. pose proof (N.div_mod x 10%N ltac:(lia)). lia.
Qed.

(** The decimal text of a number that is not negative: digits that read
    back as the number. *)
Lemma pretty_nonnegative (n : Z) :
  0 <= n ->
  all_digits (pretty n) = true /\
  parse_digits 10 0 (pretty n) = Some (Z.to_N n).
Proof.
  intros Hn. destruct n as [|p|p]; [split; reflexivity| |lia].
  change (pretty (Z.pos p)) with (pretty_N_go (N.pos p) EmptyString). split.
  - now apply all_digits_pretty_N_go.
  - destruct (parse_digits_pretty_N_go (N.pos p) EmptyString) as [k Hk].
    rewrite Hk. reflexivity.
Qed.

Lemma slice_to_slice (k : nat) (s : string) : slice_to k s +:+ slice k s = s.
Proof.
  revert s. induction k as [|k IH]; intros [|c s]; try reflexivity.
  cbn [slice_to slice]. rewrite append_cons. now rewrite IH.
Qed.

Lemma length_slice_to (k : nat) (s : string) :
  (k <= String.length s)%nat -> String.length (slice_to k s) = k.
Proof.
  revert s. induction k as [|k IH]; intros [|c s] H; cbn [String.length] in *;
    try reflexivity; try lia.
  cbn [slice_to String.length]. rewrite IH by lia. reflexivity.
Qed.

Lemma slice_to_append (a b : string) : slice_to (String.length a) (a +:+ b) = a.
Proof.
  induction a as [|c a IH]; [destruct b; reflexivity|].
  rewrite append_cons. cbn [String.length slice_to]. now rewrite IH.
Qed.

Lemma slice_to_all (s : string) : slice_to (String.length s) s = s.
Proof. rewrite <- (append_nil_r s) at 2. apply slice_to_append. Qed.

Lemma split_dot_nonempty (s : string) : split_dot s <> [].
Proof.
  induction s as [|c s IH]; [discriminate|]. cbn [split_dot].
  destruct (Ascii.eqb c "."); [discriminate|].
  destruct (split_dot s); [contradiction | discriminate].
Qed.

(** A text without a point stays in the first part. *)
Lemma split_dot_append (w s : string) :
  includes w "." = false ->
  split_dot (w +:+ s)
  = match split_dot s with
    | p :: ps => (w +:+ p) :: ps
    | [] => [w]
    end.
Proof.
  induction w as [|c w IH].
  - intros _. change (EmptyString +:+ s) with s.
    destruct (split_dot s) eqn:E; [destruct (split_dot_nonempty _ E)|].
    reflexivity.
  - cbn [includes]. rewrite prefix_cons, prefix_empty, andb_true_r.
    intros H. apply orb_false_iff in H as [Hc Hw].
    rewrite append_cons. cbn [split_dot].
    rewrite Ascii.eqb_sym, Hc, (IH Hw).
    destruct (split_dot s) eqn:E; [destruct (split_dot_nonempty _ E)|].
    reflexivity.
Qed.

Lemma split_dot_plain (w : string) :
  includes w "." = false -> split_dot w = [w].
Proof.
  intros H. rewrite <- (append_nil_r w) at 1.
  rewrite (split_dot_append _ _ H). cbn. now rewrite append_nil_r.
Qed.

Lemma all_digits_no_dot (s : string) :
  all_digits s = true -> includes s "." = false.
Proof.
  induction s as [|c s IH]; [reflexivity|]. cbn [all_digits includes].
  intros H. apply andb_prop in H as [Hc Hs].
  rewrite prefix_cons, prefix_empty, andb_true_r, (IH Hs), orb_false_r.
  destruct (Ascii.eqb_spec "." c) as [<-|_]; [discriminate Hc | reflexivity].
Qed.

(** What [replace(/0+$/, '')] leaves: the text is what is left followed by
    zeros, what is left is empty only for a text of zeros, and digits stay
    digits. *)
Lemma strip_trailing_zeros_spec (s : string) :
  (exists k, s = strip_trailing_zeros s +:+ zeros k) /\
  (strip_trailing_zeros s = EmptyString -> s = zeros (String.length s)) /\
  (all_digits s = true -> all_digits (strip_trailing_zeros s) = true).
Proof.
  induction s as [|c s (IHk & IHz & IHd)].
  - split; [exists O; reflexivity|]. split; reflexivity.
  - cbn [strip_trailing_zeros].
    destruct (Ascii.eqb_spec c "0") as [->|Hc]; cbn [andb].
    + destruct (String.eqb_spec (strip_trailing_zeros s) EmptyString) as [He|Hne].
      * split; [|split; [|reflexivity]].
        -- exists (S (String.length s)). cbn [zeros]. change (EmptyString +:+ ?x) with x.
           now rewrite <- (IHz He).
        -- intros _. cbn [String.length zeros]. now rewrite <- (IHz He).
      * split; [|split].
        -- destruct IHk as [k Hk]. exists k. rewrite append_cons. now rewrite <- Hk.
        -- discriminate.
        -- cbn [all_digits]. intros H. apply andb_prop in H as [_ H].
           now rewrite (IHd H).
    + split; [|split].
      * destruct IHk as [k Hk]. exists k. rewrite append_cons. now rewrite <- Hk.
      * discriminate.
      * cbn [all_digits]. intros H. apply andb_prop in H as [H1 H2].
        now rewrite H1, (IHd H2).
Qed.

Lemma decimal_digit_visible (c : ascii) :
  decimal_digit c = true -> visible (byte_of_ascii c) = true.
Proof.
  destruct c as [[] [] [] [] [] [] [] []]; intros H; try discriminate H;
    reflexivity.
Qed.

Lemma all_digits_visible (s : string) :
  all_digits s = true ->
  Forall (fun x => visible x = true) (list_byte_of_string s).
Proof.
  induction s as [|c s IH]; [constructor|]. cbn [all_digits].
  intros H. apply andb_prop in H as [Hc Hs].
  change (list_byte_of_string (String c s))
    with (byte_of_ascii c :: list_byte_of_string s).
  constructor; [apply decimal_digit_visible, Hc | apply IH, Hs].
Qed.

(** [BigInt] of decimal digits is the number they write. *)
Lemma BigInt_digits (s : string) (v : N) :
  s <> EmptyString -> all_digits s = true ->
  parse_digits 10 0 s = Some v -> BigInt s = Ok (Z.of_N v).
Proof.
  intros Hne Hdigits Hparse. unfold BigInt.
  rewrite (trim_visible _ (all_digits_visible _ Hdigits)).
  assert (Hnumber : parse_number 10 s = Some (Z.of_N v)).
  { destruct s; [contradiction|]. unfold parse_number. now rewrite Hparse. }
  assert (Hgrammar : parse_bigint s = parse_number 10 s).
  { destruct s as [|c r]; [contradiction|]. cbn [all_digits] in Hdigits.
    apply andb_prop in Hdigits as [Hc Hr]. unfold parse_bigint.
    assert (Hsign : Ascii.eqb c "-" = false /\ Ascii.eqb c "+" = false).
    { destruct c as [[] [] [] [] [] [] [] []]; try discriminate Hc;
        split; reflexivity. }
    destruct Hsign as [-> ->].
    destruct (Ascii.eqb_spec c "0") as [->|Hzero].
    - destruct r as [|p r]; [reflexivity|]. cbn [all_digits] in Hr.
      apply andb_prop in Hr as [Hp _].
      assert (Hprefix : (Ascii.eqb p "x" || Ascii.eqb p "X") = false /\
                        (Ascii.eqb p "o" || Ascii.eqb p "O") = false /\
                        (Ascii.eqb p "b" || Ascii.eqb p "B") = false).
      { destruct p as [[] [] [] [] [] [] [] []]; try discriminate Hp;
          repeat split; reflexivity. }
      destruct Hprefix as (-> & -> & ->). reflexivity.
    - destruct c as [[] [] [] [] [] [] [] []]; try discriminate Hc;
        try reflexivity; destruct (Hzero eq_refl). }
  now rewrite Hgrammar, Hnumber.
Qed.

(** X28. Amounts round-trip: for an amount that is not negative,
    [parseSplAmount] reads the text that [formatSplAmount] wrote, with the
    same number of decimals, back as the amount. *)
Theorem parseSplAmount_formatSplAmount (n : Z) (d : nat) :
  0 <= n -> parseSplAmount (formatSplAmount n d) d = Ok n.
Proof.
  intros Hn. destruct (pretty_nonnegative n Hn) as [Hdig Hparse].
  unfold formatSplAmount.
  set (str := padStart (pretty n) (d + 1)).
  assert (Hstr_digits : all_digits str = true).
  { unfold str, padStart. rewrite all_digits_append, all_digits_zeros. exact Hdig. }
  assert (Hstr_parse : parse_digits 10 0 str = Some (Z.to_N n)).
  { unfold str, padStart. rewrite parse_digits_zeros. exact Hparse. }
  assert (Hlen : (d + 1 <= String.length str)%nat).
  { unfold str, padStart. rewrite length_append, length_zeros. lia. }
  set (k := (String.length str - d)%nat).
  pose proof (slice_to_slice k str) as Hsplit.
  assert (Hwl : String.length (slice_to k str) = k)
    by (apply length_slice_to; lia).
  set (whole := slice_to k str) in *. set (frac := slice k str) in *.
  assert (Hfl : String.length frac = d).
  { pose proof (f_equal String.length Hsplit) as H.
    rewrite length_append, Hwl in H. lia. }
  assert (Hwne : whole <> EmptyString).
  { intros E. rewrite E in Hwl. cbn [String.length] in Hwl. lia. }
  rewrite (proj2 (String.eqb_neq _ _) Hwne).
  assert (Hparts : all_digits whole = true /\ all_digits frac = true).
  { rewrite <- Hsplit, all_digits_append in Hstr_digits.
    apply andb_prop in Hstr_digits. exact Hstr_digits. }
  destruct Hparts as [Hwd Hfd].
  assert (Hbig : BigInt (whole +:+ frac) = Ok n).
  { rewrite Hsplit, (BigInt_digits str (Z.to_N n)); try assumption.
    - f_equal. lia.
    - intros E. rewrite E in Hlen. cbn [String.length] in Hlen. lia. }
  unfold parseSplAmount.
  destruct (String.eqb_spec frac (zeros d)) as [Hz|Hnz].
  - rewrite (split_dot_plain whole (all_digits_no_dot _ Hwd)).
    cbn [lookup list_lookup default Datatypes.id]. unfold padEnd.
    change (EmptyString +:+ ?x) with x. cbn [String.length].
    rewrite Nat.sub_0_r. rewrite <- (length_zeros d) at 1.
    rewrite slice_to_all, <- Hz. exact Hbig.
  - destruct (strip_trailing_zeros_spec frac) as ([z Hzeros] & Hempty & Hdigits).
    set (rest := strip_trailing_zeros frac) in *.
    assert (Hrest : rest <> EmptyString).
    { intros E. apply Hnz. rewrite <- Hfl. exact (Hempty E). }
    rewrite (split_dot_append whole _ (all_digits_no_dot _ Hwd)).
    change (split_dot ("." +:+ rest)) with (EmptyString :: split_dot rest).
    rewrite (split_dot_plain rest (all_digits_no_dot _ (Hdigits Hfd))).
    rewrite append_nil_r. cbn [lookup list_lookup default Datatypes.id].
    assert (Hpad : padEnd rest d = frac).
    { unfold padEnd. transitivity (rest +:+ zeros z); [|symmetry; exact Hzeros].
      f_equal. f_equal.
      pose proof (f_equal String.length Hzeros) as H.
      rewrite length_append, length_zeros, Hfl in H. lia. }
    rewrite Hpad. rewrite <- Hfl at 1. rewrite slice_to_all. exact Hbig.
Qed.

(** X29. Amounts are cut, not refused: when the fraction given has the
    full number of decimals, whatever follows it (more digits, a second
    point and anything after it) is dropped, and the amount read is the one
    of the whole part followed by the fraction. *)
Theorem parseSplAmount_truncates (whole frac extra : string) (d : nat) :
  includes whole "." = false -> includes frac "." = false ->
  String.length frac = d ->
  parseSplAmount (whole +:+ "." +:+ frac +:+ extra) d = BigInt (whole +:+ frac).
Proof.
  intros Hw Hf Hlen. unfold parseSplAmount.
  rewrite (split_dot_append whole _ Hw).
  change (split_dot ("." +:+ frac +:+ extra))
    with (EmptyString :: split_dot (frac +:+ extra)).
  cbv beta iota. rewrite append_nil_r, (split_dot_append frac _ Hf).
  assert (Hcut : forall p, slice_to d (padEnd (frac +:+ p) d) = frac).
  { intros p. unfold padEnd.
    replace (d - String.length (frac +:+ p))%nat with O
      by (rewrite length_append; lia).
    cbn [zeros]. rewrite append_nil_r, <- Hlen. apply slice_to_append. }
  destruct (split_dot extra) as [|p ps];
    cbn [lookup list_lookup default Datatypes.id].
  - rewrite <- (append_nil_r frac) at 1. now rewrite Hcut.
  - now rewrite Hcut.
Qed.

Lemma parseSplAmount_formatSplAmount_witness :
  parseSplAmount (formatSplAmount 1500000 6) 6 = Ok 1500000.
Proof. apply parseSplAmount_formatSplAmount. lia. Defined.

Lemma parseSplAmount_truncates_witness :
  parseSplAmount ("1" +:+ "." +:+ "234567" +:+ "89.1") 6
  = BigInt ("1" +:+ "234567").
Proof. apply parseSplAmount_truncates; reflexivity. Defined.
